(** * The asset manifest of the compiler: construction, route-import
      optimizer and writer (packages/remix-dev/compiler/manifest.ts)

    The development embeds [create], [write], [optimizeRoutes] and
    [optimizeRouteImports] as Rocq functions and proves the laws stated
    for them.

    Conventions of the embedding.
    - A JavaScript object used as a record of named properties whose
      enumeration order matters ([routes], [metafile.outputs],
      [config.routes]) is an insertion-ordered list of properties
      ([JsObject]); an object used only as a dictionary ([importsCache],
      the [Map] [routesByFile]) is a [gmap].
    - Mutation is explicit state passing: a function that mutates [routes]
      and [importsCache] returns the new ones next to its result.
    - A call either returns, throws, or has not finished within the given
      fuel ([outcome]); recursion depth is the only thing fuel bounds. *)

From stdpp Require Import gmap strings list sorting.
From Stdlib Require Import Ascii String List Sorting.Permutation Lia.

Local Open Scope string_scope.
Local Open Scope list_scope.

(** ** Insertion-ordered JavaScript objects *)

Module JsObject.
Section ordered_object.
Context {V : Type}.

(** An object is the list of its own properties in the order in which
    they were created, which is the order ECMAScript enumerates string
    keys in (keys that spell an array index, which it enumerates first,
    are not treated apart). Properties inherited from a prototype are not
    part of the model: a key that is not an own property reads as
    [undefined]. *)

(** [o[k]] *)
Fixpoint get (k : string) (o : list (string * V)) : option V :=
  match o with
  | [] => None
  | (k', v) :: rest => if String.eqb k k' then Some v else get k rest
  end.

(** [o[k] = v]: an existing property keeps its place, a new one is added
    last. *)
Fixpoint set (k : string) (v : V) (o : list (string * V)) : list (string * V) :=
  match o with
  | [] => [(k, v)]
  | (k', v') :: rest =>
      if String.eqb k k' then (k', v) :: rest else (k', v') :: set k v rest
  end.

(** Mutation of the object stored under [k] (a field assignment through
    the reference [o[k]]). *)
Fixpoint update (k : string) (f : V -> V) (o : list (string * V)) : list (string * V) :=
  match o with
  | [] => []
  | (k', v) :: rest =>
      if String.eqb k k' then (k', f v) :: rest else (k', v) :: update k f rest
  end.

(** [Object.keys(o)], also the order of [for (let key in o)]. *)
Definition keys (o : list (string * V)) : list string := List.map fst o.

End ordered_object.
End JsObject.

(** ** Outcomes of a call *)

Inductive JsError : Type :=
| TypeError                       (* property read on [undefined] *)
| InvariantError (msg : string).  (* thrown by [invariant] *)

Inductive outcome (A : Type) : Type :=
| Returned (a : A)
| Thrown (e : JsError)
| OutOfFuel.

Arguments Returned {A} a.
Arguments Thrown {A} e.
Arguments OutOfFuel {A}.

#[global] Instance outcome_bind : MBind outcome := fun A B k m =>
  match m with
  | Returned a => k a
  | Thrown e => Thrown e
  | OutOfFuel => OutOfFuel
  end.

#[global] Instance outcome_fmap : FMap outcome := fun A B f m =>
  match m with
  | Returned a => Returned (f a)
  | Thrown e => Thrown e
  | OutOfFuel => OutOfFuel
  end.

(** The call is over, by a return or by a throw. *)
Definition finished {A : Type} (m : outcome A) : bool :=
  match m with OutOfFuel => false | _ => true end.

(** ** Manifest data *)

(** An entry of [Manifest["routes"]], with the fields of the object literal
    built in [create]. Optional fields are [option]s: [None] is
    [undefined]. *)
Record ManifestRoute : Type := mkManifestRoute {
  id : string;
  parentId : option string;
  path : option string;
  index : option bool;
  caseSensitive : option bool;
  module : string;
  imports : option (list string);
  hasAction : bool;
  hasLoader : bool;
  hasCatchBoundary : bool;
  hasErrorBoundary : bool
}.

(** [route.imports = v] *)
Definition set_imports (v : option (list string)) (r : ManifestRoute) : ManifestRoute :=
  {| id := id r; parentId := parentId r; path := path r; index := index r;
     caseSensitive := caseSensitive r; module := module r; imports := v;
     hasAction := hasAction r; hasLoader := hasLoader r;
     hasCatchBoundary := hasCatchBoundary r;
     hasErrorBoundary := hasErrorBoundary r |}.

Abbreviation Routes := (list (string * ManifestRoute)).
Abbreviation ImportsCache := (gmap string (list string)).

(** Truthiness of an optional string: [undefined] and the empty string are
    falsy. *)
Definition truthy (o : option string) : option string :=
  match o with
  | Some s => if String.eqb s EmptyString then None else Some s
  | None => None
  end.

(** [l.includes(url)] on an array of strings. *)
Definition includes (l : list string) (url : string) : bool :=
  existsb (String.eqb url) l.

(** [route.imports || []] *)
Definition imports_or_empty (r : ManifestRoute) : list string :=
  match imports r with Some l => l | None => [] end.

(** [routeImports.length > 0 ? routeImports : undefined] *)
Definition nonempty_or_undefined (l : list string) : option (list string) :=
  match l with [] => None | _ :: _ => Some l end.

(** ** The optimizer *)

(** [optimizeRouteImports(routeId, routes, parentImports, importsCache)].
    [route] is a reference to the object stored under [routeId]: its
    [imports] are read after the recursive call, from the object as that
    call left it ([route']; the optimizer never removes a property of
    [routes], see [optimizeRouteImports_skeleton]). *)
Fixpoint optimizeRouteImports (fuel : nat) (routeId : string) (routes : Routes)
    (parentImports : list string) (importsCache : ImportsCache)
    : outcome (list string * Routes * ImportsCache) :=
  match fuel with
  | O => OutOfFuel
  | S fuel' =>
      match importsCache !! routeId with
      | Some cached => Returned (cached, routes, importsCache)
      | None =>
          match JsObject.get routeId routes with
          | None => Thrown TypeError
          | Some route =>
              '(parentImports', routes', importsCache') ←
                match truthy (parentId route) with
                | Some parent =>
                    '(fromParent, routes', importsCache') ←
                      optimizeRouteImports fuel' parent routes parentImports importsCache;
                    Returned (parentImports ++ fromParent, routes', importsCache')
                | None => Returned (parentImports, routes, importsCache)
                end;
              let route' := default route (JsObject.get routeId routes') in
              let routeImports :=
                List.filter (fun url => negb (includes parentImports' url))
                            (imports_or_empty route') in
              Returned (routeImports,
                        JsObject.update routeId
                          (set_imports (nonempty_or_undefined routeImports)) routes',
                        <[routeId := routeImports]> importsCache')
          end
      end
  end.

(** The loop [for (let key in routes) optimizeRouteImports(key, ...)]. *)
Fixpoint optimizeEach (fuel : nat) (todo : list string) (routes : Routes)
    (entryImports : list string) (importsCache : ImportsCache)
    : outcome (Routes * ImportsCache) :=
  match todo with
  | [] => Returned (routes, importsCache)
  | key :: rest =>
      '(_, routes', importsCache') ←
        optimizeRouteImports fuel key routes entryImports importsCache;
      optimizeEach fuel rest routes' entryImports importsCache'
  end.

(** [optimizeRoutes(routes, entryImports)]; the mutated [routes] is the
    result. *)
Definition optimizeRoutes (fuel : nat) (routes : Routes) (entryImports : list string)
    : outcome Routes :=
  '(routes', _) ← optimizeEach fuel (JsObject.keys routes) routes entryImports ∅;
  Returned routes'.


(** ** Build configuration, bundler metadata and the manifest *)

(** [type Route = RemixConfig["routes"][string]], with the fields [create]
    reads. *)
Module Route.
Record t : Type := mk {
  id : string;
  parentId : option string;
  path : option string;
  index : option bool;
  caseSensitive : option bool;
  file : string
}.
End Route.

(** The fields of [RemixConfig] that [create] and [write] read. *)
Module RemixConfig.
Record t : Type := mk {
  publicPath : string;
  assetsBuildDirectory : string;
  entryClientFilePath : string;
  routes : list (string * Route.t)
}.
End RemixConfig.

(** [esbuild.Metafile]: per emitted file, its entry point (if it is one)
    and its import edges. *)
Module Metafile.
Record Import : Type := mkImport {
  path : string;
  kind : string
}.
Record Output : Type := mkOutput {
  imports : list Import;
  entryPoint : option string
}.
Record t : Type := mk {
  outputs : list (string * Output)
}.
End Metafile.

(** [Manifest["entry"]] *)
Module Entry.
Record t : Type := mk {
  module : string;
  imports : list string
}.
End Entry.

(** [fingerprintedValues]: what the version is computed from. *)
Module Fingerprinted.
Record t : Type := mk {
  entry : Entry.t;
  routes : Routes;
  cssBundleHref : option string
}.
End Fingerprinted.

(** [Manifest]; [Hmr] is the type of the hot-reload descriptor. *)
Module Manifest.
Record t (Hmr : Type) : Type := mk {
  entry : Entry.t;
  routes : Routes;
  cssBundleHref : option string;
  version : string;
  hmr : option Hmr;
  url : option string
}.
Arguments mk {Hmr}.
Arguments entry {Hmr}.
Arguments routes {Hmr}.
Arguments cssBundleHref {Hmr}.
Arguments version {Hmr}.
Arguments hmr {Hmr}.
Arguments url {Hmr}.
End Manifest.

(** What the module takes from outside: node's [path], the hash of
    [./utils/crypto], the export inspector of [./utils/routeExports] (its
    awaited result) and [JSON.stringify] at the two types it is used at. *)
Class Externals : Type := {
  Hmr : Type;
  path_resolve : string -> string;
  path_relative : string -> string -> string;
  path_join : string -> string -> string;
  path_dirname : string -> string;
  getHash : string -> string;
  getRouteModuleExports : RemixConfig.t -> string -> list string;
  JSON_stringify_fingerprinted : Fingerprinted.t -> string;
  JSON_stringify_manifest : Manifest.t Hmr -> string
}.

(** Modelled from the spec: [invariant] of [../invariant], which is not
    among the sources; a violated invariant is "fatal, aborts the build,
    surfaced as an unrecoverable error". The value passes through when it
    is present. *)
Definition invariant {A : Type} (value : option A) (message : string) : outcome A :=
  match value with
  | Some v => Returned v
  | None => Thrown (InvariantError message)
  end.

(** ** Strings *)

(** A string stands for the sequence of code units of the JavaScript
    string. *)

(** [path.win32.sep], the backslash. *)
Definition win32_sep : ascii := ascii_of_nat 92.

(** [file.split(path.win32.sep).join("/")]: every backslash becomes a
    slash. *)
Fixpoint win32_to_posix (filePath : string) : string :=
  match filePath with
  | EmptyString => EmptyString
  | String c rest =>
      String (if Ascii.eqb c win32_sep then "/"%char else c) (win32_to_posix rest)
  end.

(** [s.endsWith(suffix)] *)
Definition endsWith (s suffix : string) : bool :=
  String.eqb
    (String.substring (String.length s - String.length suffix) (String.length suffix) s)
    suffix
  && (String.length suffix <=? String.length s)%nat.

(** [entryPoint.replace(re, empty)] for the pattern [re] of the source,
    which matches [browser-route-module:] at the start and [?browser] at
    the end: both are removed where they occur. *)
Definition strip_route_module_tag (entryPoint : string) : string :=
  let tag := "browser-route-module:" in
  let query := "?browser" in
  let untagged :=
    if String.prefix tag entryPoint
    then String.substring (String.length tag)
           (String.length entryPoint - String.length tag) entryPoint
    else entryPoint in
  if endsWith untagged query
  then String.substring 0 (String.length untagged - String.length query) untagged
  else untagged.

(** [c.toUpperCase()] for a code unit below 128: the letters a to z
    change, the rest does not. Code units from 128 on are left as they are
    here; a version string, the prefix of a hexadecimal digest, has
    none. *)
Definition upper_ascii (c : ascii) : ascii :=
  let n := nat_of_ascii c in
  if ((97 <=? n) && (n <=? 122))%nat then ascii_of_nat (n - 32) else c.

(** [s.toUpperCase()] *)
Fixpoint toUpperCase (s : string) : string :=
  match s with
  | EmptyString => EmptyString
  | String c rest => String (upper_ascii c) (toUpperCase rest)
  end.

(** The order of the default [Array.prototype.sort]: code units compared
    lexicographically. *)
Definition string_le (a b : string) : Prop := String.leb a b = true.

#[global] Instance string_le_dec (a b : string) : Decision (string_le a b).
Proof. unfold string_le. apply _. Defined.

(** ** The manifest builder *)

Section builder.
Context `{Externals}.

(** [createUrl(publicPath, file)] *)
Definition createUrl (publicPath file : string) : string :=
  publicPath +:+ win32_to_posix file.

(** [resolveUrl(outputPath)], a closure over [config]. *)
Definition resolveUrl (config : RemixConfig.t) (outputPath : string) : string :=
  createUrl (RemixConfig.publicPath config)
    (path_relative (RemixConfig.assetsBuildDirectory config) (path_resolve outputPath)).

(** [resolveImports(imports)] *)
Definition resolveImports (config : RemixConfig.t) (imports : list Metafile.Import)
    : list string :=
  List.map (fun im => resolveUrl config (Metafile.path im))
    (List.filter (fun im => String.eqb (Metafile.kind im) "import-statement") imports).

(** [routesByFile]: the routes of [config.routes] grouped by source file,
    each group in the order of [Object.keys(config.routes)]. *)
Definition routesByFile (config : RemixConfig.t) : gmap string (list Route.t) :=
  List.fold_left
    (fun (map : gmap string (list Route.t)) key =>
       match JsObject.get key (RemixConfig.routes config) with
       | Some route =>
           <[Route.file route :=
               match map !! Route.file route with
               | Some group => group ++ [route]
               | None => [route]
               end]> map
       | None => map
       end)
    (JsObject.keys (RemixConfig.routes config)) ∅.

(** The object literal stored under [routes[route.id]]. *)
Definition manifestRoute (config : RemixConfig.t) (key : string)
    (output : Metafile.Output) (route : Route.t) : ManifestRoute :=
  let sourceExports := getRouteModuleExports config (Route.id route) in
  {| id := Route.id route;
     parentId := Route.parentId route;
     path := Route.path route;
     index := Route.index route;
     caseSensitive := Route.caseSensitive route;
     module := resolveUrl config key;
     imports := Some (resolveImports config (Metafile.imports output));
     hasAction := includes sourceExports "action";
     hasLoader := includes sourceExports "loader";
     hasCatchBoundary := includes sourceExports "CatchBoundary";
     hasErrorBoundary := includes sourceExports "ErrorBoundary" |}.

(** One turn of the loop over the sorted output keys; the state is the
    pair of [entry] and [routes]. *)
Definition visitOutput (config : RemixConfig.t) (metafile : Metafile.t)
    (byFile : gmap string (list Route.t))
    (state : option Entry.t * Routes) (key : string)
    : outcome (option Entry.t * Routes) :=
  match JsObject.get key (Metafile.outputs metafile) with
  | None => Thrown TypeError
  | Some output =>
      match truthy (Metafile.entryPoint output) with
      | None => Returned state
      | Some entryPoint =>
          if String.eqb (path_resolve entryPoint) (RemixConfig.entryClientFilePath config)
          then
            Returned
              (Some {| Entry.module := resolveUrl config key;
                       Entry.imports := resolveImports config (Metafile.imports output) |},
               snd state)
          else if String.prefix "browser-route-module:" entryPoint
          then
            let entryPointFile := strip_route_module_tag entryPoint in
            groupedRoute ←
              invariant (byFile !! entryPointFile)
                ("Cannot get route(s) for entry point " +:+ entryPoint);
            Returned
              (fst state,
               List.fold_left
                 (fun routes route =>
                    JsObject.set (Route.id route)
                      (manifestRoute config key output route) routes)
                 groupedRoute (snd state))
          else Returned state
      end
  end.

(** The loop itself. *)
Fixpoint visitOutputs (config : RemixConfig.t) (metafile : Metafile.t)
    (byFile : gmap string (list Route.t))
    (state : option Entry.t * Routes) (sortedKeys : list string)
    : outcome (option Entry.t * Routes) :=
  match sortedKeys with
  | [] => Returned state
  | key :: rest =>
      state' ← visitOutput config metafile byFile state key;
      visitOutputs config metafile byFile state' rest
  end.

(** [Object.keys(metafile.outputs).sort()] *)
Definition sortedOutputKeys (metafile : Metafile.t) : list string :=
  merge_sort string_le (JsObject.keys (Metafile.outputs metafile)).

(** [getHash(JSON.stringify(fingerprintedValues)).slice(0, 8)] *)
Definition versionOf (fingerprintedValues : Fingerprinted.t) : string :=
  String.substring 0 8 (getHash (JSON_stringify_fingerprinted fingerprintedValues)).

(** [create({config, metafile, cssBundleHref, hmr})]; [fuel] bounds the
    recursion of the optimizer. *)
Definition create (fuel : nat) (config : RemixConfig.t) (metafile : Metafile.t)
    (cssBundleHref : option string) (hmr : option Hmr) : outcome (Manifest.t Hmr) :=
  '(entry, routes) ←
    visitOutputs config metafile (routesByFile config) (None, [])
      (sortedOutputKeys metafile);
  entry ← invariant entry "Missing output for entry point";
  routes ← optimizeRoutes fuel routes (Entry.imports entry);
  let fingerprintedValues :=
    {| Fingerprinted.entry := entry;
       Fingerprinted.routes := routes;
       Fingerprinted.cssBundleHref := cssBundleHref |} in
  let version := versionOf fingerprintedValues in
  Returned
    {| Manifest.entry := entry;
       Manifest.routes := routes;
       Manifest.cssBundleHref := cssBundleHref;
       Manifest.version := version;
       Manifest.hmr := hmr;
       Manifest.url := None |}.

(** ** The manifest writer *)

(** The files and directories on disk. *)
Record FileSystem : Type := mkFileSystem {
  directories : list string;
  files : gmap string string
}.

(** [writeFileSafe(file, contents)]: [mkdir] of the parent directory, then
    [writeFile], which replaces a file of the same name. *)
Definition writeFileSafe (file contents : string) (fs : FileSystem) : FileSystem :=
  {| directories := path_dirname file :: directories fs;
     files := <[file := contents]> (files fs) |}.

(** [assetsManifest.url = v] *)
Definition set_url (v : string) (m : Manifest.t Hmr) : Manifest.t Hmr :=
  {| Manifest.entry := Manifest.entry m;
     Manifest.routes := Manifest.routes m;
     Manifest.cssBundleHref := Manifest.cssBundleHref m;
     Manifest.version := Manifest.version m;
     Manifest.hmr := Manifest.hmr m;
     Manifest.url := Some v |}.

(** [manifest-${assetsManifest.version.toUpperCase()}.js] *)
Definition manifestFilename (assetsManifest : Manifest.t Hmr) : string :=
  "manifest-" +:+ toUpperCase (Manifest.version assetsManifest) +:+ ".js".

(** [write(config, assetsManifest)]: the manifest as stamped with its url
    and the file system after the write. *)
Definition write (config : RemixConfig.t) (assetsManifest : Manifest.t Hmr)
    (fs : FileSystem) : Manifest.t Hmr * FileSystem :=
  let filename := manifestFilename assetsManifest in
  let assetsManifest' := set_url (RemixConfig.publicPath config +:+ filename) assetsManifest in
  (assetsManifest',
   writeFileSafe (path_join (RemixConfig.assetsBuildDirectory config) filename)
     ("window.__remixManifest=" +:+ JSON_stringify_manifest assetsManifest' +:+ ";") fs).

(** The [fingerprintedValues] a manifest was built from. *)
Definition fingerprinted (m : Manifest.t Hmr) : Fingerprinted.t :=
  {| Fingerprinted.entry := Manifest.entry m;
     Fingerprinted.routes := Manifest.routes m;
     Fingerprinted.cssBundleHref := Manifest.cssBundleHref m |}.

(** Modelled from the spec: the build step that calls [create] and then
    [write]; the caller is not among the sources, the spec has "the
    manifest for one build is fully computed before being handed to the
    writer". The file system comes back whether the build returned or
    threw. *)
Definition createAndWrite (fuel : nat) (config : RemixConfig.t) (metafile : Metafile.t)
    (cssBundleHref : option string) (hmr : option Hmr) (fs : FileSystem)
    : outcome (Manifest.t Hmr) * FileSystem :=
  match create fuel config metafile cssBundleHref hmr with
  | Returned assetsManifest =>
      let '(assetsManifest', fs') := write config assetsManifest fs in
      (Returned assetsManifest', fs')
  | Thrown e => (Thrown e, fs)
  | OutOfFuel => (OutOfFuel, fs)
  end.

End builder.

(** ** The route tree *)

(** The parent link the optimizer follows from [k]: the [parentId] of the
    route stored under [k], when it is truthy. *)
Definition parent_of (routes : Routes) (k : string) : option string :=
  match JsObject.get k routes with
  | Some route => truthy (parentId route)
  | None => None
  end.

(** The id reached from [k] after [n] parent links. *)
Fixpoint follow (routes : Routes) (n : nat) (k : string) : option string :=
  match n with
  | O => Some k
  | S n' =>
      match parent_of routes k with
      | Some parent => follow routes n' parent
      | None => None
      end
  end.

(** [a] is an ancestor of [k]: one or more parent links lead from [k] to
    [a]. *)
Definition ancestor (routes : Routes) (k a : string) : Prop :=
  exists n, follow routes (S n) k = Some a.

(** Following parent links from a route never comes back to an id already
    visited. *)
Definition acyclic (routes : Routes) : Prop :=
  forall k i j x,
    In k (JsObject.keys routes) -> i < j ->
    follow routes i k = Some x -> follow routes j k = Some x -> False.

(** No dangling edge: a [parentId] that is set names a route of the same
    map. *)
Definition parents_present (routes : Routes) : Prop :=
  forall k route parent,
    JsObject.get k routes = Some route -> parentId route = Some parent ->
    In parent (JsObject.keys routes).

(** The call is over within the fuel, by a return or by a throw. *)
Definition terminates {A : Type} (run : nat -> outcome A) : Prop :=
  exists fuel, finished (run fuel) = true.

(** What the optimizer leaves of the routes: everything but [imports]. *)
Definition skeleton (routes : Routes) : Routes :=
  List.map (fun kv => (fst kv, set_imports None (snd kv))) routes.

(** The pruned import list of a route as a relation on the raw routes:
    the raw list without the urls of the entry point and of the pruned
    list of the parent. *)
Inductive Pruned (routes : Routes) (entryImports : list string)
    : string -> list string -> Prop :=
| Pruned_root k route :
    JsObject.get k routes = Some route ->
    truthy (parentId route) = None ->
    Pruned routes entryImports k
      (List.filter (fun url => negb (includes entryImports url))
                   (imports_or_empty route))
| Pruned_child k route parent fromParent :
    JsObject.get k routes = Some route ->
    truthy (parentId route) = Some parent ->
    Pruned routes entryImports parent fromParent ->
    Pruned routes entryImports k
      (List.filter (fun url => negb (includes (entryImports ++ fromParent) url))
                   (imports_or_empty route)).

(** The import list of the route stored under [k], empty when there is
    none. *)
Definition imports_of (routes : Routes) (k : string) : list string :=
  match JsObject.get k routes with
  | Some route => imports_or_empty route
  | None => []
  end.

(** The coverage set a route is filtered against: the imports of the
    entry point, followed by the pruned imports of its parent. *)
Definition coverage (routes optimized : Routes) (entryImports : list string)
    (k : string) : list string :=
  match parent_of routes k with
  | Some parent => entryImports ++ imports_of optimized parent
  | None => entryImports
  end.

(** The state of a pass, against the routes [raw] it started from: cached
    lists are pruned lists of [raw], and every route is either as in [raw]
    or carries its pruned list. *)
Record pass_inv (raw : Routes) (entryImports : list string)
    (routes : Routes) (cache : ImportsCache) : Prop := {
  inv_cached : forall k l, cache !! k = Some l -> Pruned raw entryImports k l;
  inv_route : forall k,
    JsObject.get k routes = JsObject.get k raw \/
    exists route l,
      JsObject.get k raw = Some route /\ Pruned raw entryImports k l /\
      JsObject.get k routes = Some (set_imports (nonempty_or_undefined l) route);
  inv_stored : forall k l, cache !! k = Some l ->
    exists route, JsObject.get k routes = Some route /\
                  imports route = nonempty_or_undefined l
}.

(** ** The laws as the specification states them *)

(** The pass over [routes] returns [optimized], whatever fuel it is given
    beyond the number of routes. *)
Definition passes_to (routes : Routes) (entryImports : list string)
    (optimized : Routes) : Prop :=
  forall fuel,
    length (JsObject.keys routes) < fuel ->
    optimizeRoutes fuel routes entryImports = Returned optimized.

(** Coverage law: after the pass no route keeps a url of the entry point
    or of the raw list of any of its ancestors. *)
Definition coverage_law (routes : Routes) (entryImports : list string) : Prop :=
  exists optimized,
    passes_to routes entryImports optimized /\
    forall k url,
      In k (JsObject.keys optimized) -> In url (imports_of optimized k) ->
      ~ In url entryImports /\
      forall a, ancestor routes k a -> ~ In url (imports_of routes a).

(** No-loss law: the pruned lists of a route and of its ancestors, with
    the imports of the entry point, make up the raw list of the route, as
    sets. *)
Definition no_loss_law (routes : Routes) (entryImports : list string) : Prop :=
  exists optimized,
    passes_to routes entryImports optimized /\
    forall k url,
      In k (JsObject.keys routes) ->
      (In url (imports_of optimized k) \/
       (exists a, ancestor routes k a /\ In url (imports_of optimized a)) \/
       In url entryImports)
      <-> In url (imports_of routes k).

(** ** Sample inputs *)

(** A route entry with an id, a parent and raw imports. *)
Definition sample_route (i : string) (p : option string) (l : list string)
    : ManifestRoute :=
  {| id := i; parentId := p; path := None; index := None; caseSensitive := None;
     module := "/build/" +:+ i +:+ ".js"; imports := Some l;
     hasAction := false; hasLoader := false;
     hasCatchBoundary := false; hasErrorBoundary := false |}.

(** The scenario of the specification: entry [A, B], a parent and a
    child. *)
Definition scenario_routes : Routes :=
  [("root", sample_route "root" None ["A"; "B"; "C"]);
   ("routes/child", sample_route "routes/child" (Some "root") ["A"; "B"; "C"; "D"])].

(** Three levels: the child imports what its grandparent imports. *)
Definition three_levels : Routes :=
  [("root", sample_route "root" None ["A"]);
   ("routes/a", sample_route "routes/a" (Some "root") ["A"; "B"]);
   ("routes/a/b", sample_route "routes/a/b" (Some "routes/a") ["A"; "B"; "C"])].

(** What the pass leaves of [scenario_routes] with entry imports [A, B],
    and of [three_levels] with none. *)
Definition scenario_optimized : Routes :=
  [("root", sample_route "root" None ["C"]);
   ("routes/child", sample_route "routes/child" (Some "root") ["D"])].

Definition three_levels_optimized : Routes :=
  [("root", sample_route "root" None ["A"]);
   ("routes/a", sample_route "routes/a" (Some "root") ["B"]);
   ("routes/a/b", sample_route "routes/a/b" (Some "routes/a") ["A"; "C"])].

(** One route that imports nothing the entry point imports. *)
Definition lone_route : Routes :=
  [("root", sample_route "root" None ["B"])].

(** Two routes that name each other as parent. *)
Definition two_cycle : Routes :=
  [("x", sample_route "x" (Some "y") ["A"]);
   ("y", sample_route "y" (Some "x") ["B"])].

(** [acyclic] as a check: every chain ends within as many links as there
    are routes. *)
Definition acyclicb (routes : Routes) : bool :=
  forallb
    (fun k =>
       match follow routes (S (length (JsObject.keys routes))) k with
       | Some _ => false
       | None => true
       end)
    (JsObject.keys routes).

(** [parents_present] as a check. *)
Definition parents_presentb (routes : Routes) : bool :=
  forallb
    (fun kv =>
       match parentId (snd kv) with
       | Some parent => existsb (String.eqb parent) (JsObject.keys routes)
       | None => true
       end)
    routes.

(** ** The version string *)

(** Every code unit of [s] passes [p]. *)
Fixpoint string_forall (p : ascii -> bool) (s : string) : bool :=
  match s with
  | EmptyString => true
  | String c rest => p c && string_forall p rest
  end.

Definition is_digit (c : ascii) : bool :=
  let n := nat_of_ascii c in ((48 <=? n) && (n <=? 57))%nat.

(** [0-9a-fA-F] *)
Definition is_hex_digit (c : ascii) : bool :=
  let n := nat_of_ascii c in
  is_digit c || ((97 <=? n) && (n <=? 102))%nat || ((65 <=? n) && (n <=? 70))%nat.

(** [0-9A-F] *)
Definition is_upper_hex_digit (c : ascii) : bool :=
  let n := nat_of_ascii c in
  is_digit c || ((65 <=? n) && (n <=? 70))%nat.

(** Modelled from the spec: what [getHash] of [./utils/crypto], which is
    not among the sources, returns: "a deterministic content fingerprint"
    of which the version is "an 8-character ... hexadecimal prefix", that
    is a string of hexadecimal digits, eight of them at least. *)
Definition hex_digest (hash : string) : Prop :=
  8 <= String.length hash /\ string_forall is_hex_digit hash = true.

(** ** The client entry point among the outputs *)

(** No output of the bundler is an entry point whose resolved path is the
    client entry file of the configuration. *)
Definition no_client_entry `{Externals} (config : RemixConfig.t) (metafile : Metafile.t)
    : Prop :=
  forall key output entryPoint,
    JsObject.get key (Metafile.outputs metafile) = Some output ->
    truthy (Metafile.entryPoint output) = Some entryPoint ->
    path_resolve entryPoint <> RemixConfig.entryClientFilePath config.

(** [no_client_entry] as a check. *)
Definition no_client_entryb `{Externals} (config : RemixConfig.t) (metafile : Metafile.t)
    : bool :=
  forallb
    (fun kv =>
       match truthy (Metafile.entryPoint (snd kv)) with
       | Some entryPoint =>
           negb (String.eqb (path_resolve entryPoint)
                            (RemixConfig.entryClientFilePath config))
       | None => true
       end)
    (Metafile.outputs metafile).

(** ** A sample build *)

(** The digit of [n mod 16]. *)
Definition hex_digit_of (n : N) : ascii :=
  match String.get (N.to_nat (n mod 16)) "0123456789abcdef" with
  | Some c => c
  | None => "0"%char
  end.

(** [n] in [width] hexadecimal digits. *)
Fixpoint hex_of_N (width : nat) (n : N) : string :=
  match width with
  | O => EmptyString
  | S w => hex_of_N w (n / 16) +:+ String (hex_digit_of n) EmptyString
  end.

(** A checksum of the code units of [s]. *)
Fixpoint checksum (acc : N) (s : string) : N :=
  match s with
  | EmptyString => acc
  | String c rest => checksum ((acc * 31 + N_of_ascii c) mod 4294967296)%N rest
  end.

(** [to] without the leading [from/], when it starts with it. *)
Definition sample_relative (from to : string) : string :=
  if String.prefix (from +:+ "/") to
  then String.substring (S (String.length from))
         (String.length to - S (String.length from)) to
  else to.

(** The urls of a list of routes, one after the other. *)
Definition sample_serialize (entry : Entry.t) (routes : Routes) : string :=
  String.concat ","
    (Entry.module entry :: Entry.imports entry ++
     List.concat (List.map (fun kv => fst kv :: imports_or_empty (snd kv)) routes)).

(** Stand-ins for the outside world: paths that are already resolved, two
    checksums in eight hexadecimal digits each for a hash, routes that export
    a [loader], and a serialization that lists urls. *)
Definition sample_externals : Externals :=
  {| Hmr := nat;
     path_resolve := fun p => p;
     path_relative := sample_relative;
     path_join := fun a b => a +:+ "/" +:+ b;
     path_dirname := fun p => p;
     getHash := fun s => hex_of_N 8 (checksum 7 s) +:+ hex_of_N 8 (checksum 11 s);
     getRouteModuleExports := fun _ _ => ["loader"];
     JSON_stringify_fingerprinted := fun v =>
       sample_serialize (Fingerprinted.entry v) (Fingerprinted.routes v);
     JSON_stringify_manifest := fun m =>
       Manifest.version m +:+ ":" +:+
       sample_serialize (Manifest.entry m) (Manifest.routes m) |}.

Definition sample_config : RemixConfig.t :=
  {| RemixConfig.publicPath := "/build/";
     RemixConfig.assetsBuildDirectory := "public/build";
     RemixConfig.entryClientFilePath := "app/entry.client.tsx";
     RemixConfig.routes :=
       [("root", Route.mk "root" None None None None "root.tsx");
        ("routes/index",
         Route.mk "routes/index" (Some "root") None (Some true) None "routes/index.tsx")] |}.

Definition sample_import (p : string) : Metafile.Import :=
  Metafile.mkImport p "import-statement".

Definition sample_outputs : list (string * Metafile.Output) :=
  [("public/build/root-B2.js",
    Metafile.mkOutput
      [sample_import "public/build/_shared/chunk-1.js";
       sample_import "public/build/_shared/chunk-2.js";
       Metafile.mkImport "public/build/_shared/lazy.js" "dynamic-import"]
      (Some "browser-route-module:root.tsx?browser"));
   ("public/build/entry.client-A1.js",
    Metafile.mkOutput [sample_import "public/build/_shared/chunk-1.js"]
      (Some "app/entry.client.tsx"));
   ("public/build/_shared/chunk-1.js", Metafile.mkOutput [] None);
   ("public/build/routes/index-C3.js",
    Metafile.mkOutput
      [sample_import "public/build/_shared/chunk-1.js";
       sample_import "public/build/_shared/chunk-2.js";
       sample_import "public/build/_shared/chunk-3.js"]
      (Some "browser-route-module:routes/index.tsx?browser"))].

Definition sample_metafile : Metafile.t := Metafile.mk sample_outputs.

(** The same outputs, enumerated in the opposite order. *)
Definition sample_metafile_reversed : Metafile.t := Metafile.mk (List.rev sample_outputs).

(** The outputs without the client entry point. *)
Definition sample_metafile_no_entry : Metafile.t :=
  Metafile.mk
    [("public/build/root-B2.js",
      Metafile.mkOutput [sample_import "public/build/_shared/chunk-1.js"]
        (Some "browser-route-module:root.tsx?browser"));
     ("public/build/_shared/chunk-1.js", Metafile.mkOutput [] None)].

Definition empty_disk : FileSystem := {| directories := []; files := ∅ |}.

(** ** Further notions for the builder and the pass *)

(** Every parent link the optimizer follows leads to a route of the
    map. *)
Definition links_present (routes : Routes) : Prop :=
  forall k parent,
    parent_of routes k = Some parent -> In parent (JsObject.keys routes).


(** The outputs the loop of [create] passes over: those that are no entry
    point, and the entry points that are neither the client entry nor a
    tagged route module. *)
Definition passed_over `{Externals} (config : RemixConfig.t) (output : Metafile.Output)
    : bool :=
  match truthy (Metafile.entryPoint output) with
  | None => true
  | Some entryPoint =>
      negb (String.eqb (path_resolve entryPoint)
                       (RemixConfig.entryClientFilePath config))
      && negb (String.prefix "browser-route-module:" entryPoint)
  end.

(** The metafile without the outputs that are passed over. *)
Definition without_passed_over `{Externals} (config : RemixConfig.t)
    (metafile : Metafile.t) : Metafile.t :=
  Metafile.mk
    (List.filter (fun kv => negb (passed_over config (snd kv)))
                 (Metafile.outputs metafile)).

(** [entry] is built from an output whose entry point resolves to the
    client entry file. *)
Definition entry_from `{Externals} (config : RemixConfig.t) (metafile : Metafile.t)
    (entry : Entry.t) : Prop :=
  exists key output entryPoint,
    JsObject.get key (Metafile.outputs metafile) = Some output /\
    truthy (Metafile.entryPoint output) = Some entryPoint /\
    path_resolve entryPoint = RemixConfig.entryClientFilePath config /\
    entry = {| Entry.module := resolveUrl config key;
               Entry.imports := resolveImports config (Metafile.imports output) |}.

(** [route] is the manifest entry built for the route [k] of the
    configuration from an output whose entry point is the tagged source
    file of that route and not the client entry. *)
Definition route_from `{Externals} (config : RemixConfig.t) (metafile : Metafile.t)
    (k : string) (route : ManifestRoute) : Prop :=
  exists key output entryPoint configKey configRoute,
    JsObject.get key (Metafile.outputs metafile) = Some output /\
    truthy (Metafile.entryPoint output) = Some entryPoint /\
    path_resolve entryPoint <> RemixConfig.entryClientFilePath config /\
    String.prefix "browser-route-module:" entryPoint = true /\
    JsObject.get configKey (RemixConfig.routes config) = Some configRoute /\
    Route.file configRoute = strip_route_module_tag entryPoint /\
    Route.id configRoute = k /\
    route = manifestRoute config key output configRoute.

(** The manifest of the sample build, as [create] returns it. *)
Definition sample_manifest : Manifest.t nat :=
  Eval vm_compute in
    match @create sample_externals 2 sample_config sample_metafile None None with
    | Returned m => m
    | _ => Manifest.mk (Entry.mk EmptyString []) [] None EmptyString None None
    end.

(** Its index route. *)
Definition sample_index_route : ManifestRoute :=
  Eval vm_compute in
    match JsObject.get "routes/index" (Manifest.routes sample_manifest) with
    | Some route => route
    | None => sample_route "routes/index" None []
    end.

(** The sample outputs with a chunk that is an entry point of its own,
    as a dynamic import makes one. *)
Definition sample_metafile_lazy : Metafile.t :=
  Metafile.mk
    (("public/build/_shared/lazy.js",
      Metafile.mkOutput [sample_import "public/build/_shared/chunk-1.js"]
        (Some "app/lazy.tsx")) :: sample_outputs).

(** The sample outputs with a route module of a file that backs no
    route. *)
Definition sample_metafile_unrouted : Metafile.t :=
  Metafile.mk
    (("public/build/routes/gone-D4.js",
      Metafile.mkOutput [] (Some "browser-route-module:routes/gone.tsx?browser"))
     :: sample_outputs).

(** * Proofs *)

(** ** Ordered objects *)

Section object_facts.
Context {V : Type}.
Implicit Types (o : list (string * V)) (k : string).

Lemma get_update_eq k f o :
  JsObject.get k (JsObject.update k f o) = f <$> JsObject.get k o.
Proof.
  induction o as [|[k' v] o IH]; simpl; [reflexivity|].
  destruct (String.eqb k k') eqn:Hk; simpl; rewrite Hk; auto.
Qed.

Lemma get_update_ne k k' f o :
  k <> k' -> JsObject.get k' (JsObject.update k f o) = JsObject.get k' o.
Proof.
  intros Hne. induction o as [|[k0 v] o IH]; simpl; [reflexivity|].
  destruct (String.eqb k k0) eqn:Hk; simpl.
  - apply String.eqb_eq in Hk. subst k0.
    destruct (String.eqb k' k) eqn:Hk'; [|reflexivity].
    apply String.eqb_eq in Hk'. congruence.
  - destruct (String.eqb k' k0); auto.
Qed.

Lemma update_id k f o :
  (forall v, JsObject.get k o = Some v -> f v = v) -> JsObject.update k f o = o.
Proof.
  induction o as [|[k' v] o IH]; simpl; intros Hf; [reflexivity|].
  destruct (String.eqb k k') eqn:Hk.
  - rewrite Hf; reflexivity.
  - rewrite IH; auto.
Qed.

Lemma get_Some_keys k o v : JsObject.get k o = Some v -> In k (JsObject.keys o).
Proof.
  unfold JsObject.keys. induction o as [|[k' v'] o IH]; simpl; [discriminate|].
  destruct (String.eqb k k') eqn:Hk.
  - apply String.eqb_eq in Hk. auto.
  - auto.
Qed.

Lemma keys_get_Some k o : In k (JsObject.keys o) -> exists v, JsObject.get k o = Some v.
Proof.
  unfold JsObject.keys. induction o as [|[k' v'] o IH]; simpl; [tauto|].
  intros [Heq|Hin].
  - subst k'. rewrite String.eqb_refl. eauto.
  - destruct (String.eqb k k'); eauto.
Qed.

Lemma get_map_values {W : Type} (g : V -> W) k o :
  JsObject.get k (List.map (fun kv => (fst kv, g (snd kv))) o) = g <$> JsObject.get k o.
Proof.
  induction o as [|[k' v] o IH]; simpl; [reflexivity|].
  destruct (String.eqb k k'); auto.
Qed.

Lemma get_In k (v : V) o :
  JsObject.get k o = Some v -> In (k, v) o.
Proof.
  induction o as [|[k' v'] o IH]; simpl; [discriminate|].
  destruct (String.eqb k k') eqn:Hk.
  - apply String.eqb_eq in Hk. intros [= ->]. left. congruence.
  - auto.
Qed.

Lemma In_get k (v : V) o :
  NoDup (JsObject.keys o) -> In (k, v) o -> JsObject.get k o = Some v.
Proof.
  unfold JsObject.keys.
  induction o as [|[k' v'] o IH]; simpl; intros Hnd Hin; [destruct Hin|].
  inversion Hnd as [|? ? Hfresh Hnd']; subst.
  destruct Hin as [[= -> ->]|Hin].
  - now rewrite String.eqb_refl.
  - destruct (String.eqb k k') eqn:Hk; [|auto].
    apply String.eqb_eq in Hk. subst k'. exfalso. apply Hfresh.
    apply (in_map fst) in Hin. exact Hin.
Qed.

(** Two objects with the same properties, in whatever order, answer every
    lookup alike. *)
Lemma get_permutation (o1 o2 : list (string * V)) k :
  NoDup (JsObject.keys o1) -> Permutation o1 o2 ->
  JsObject.get k o1 = JsObject.get k o2.
Proof.
  intros Hnd Hperm.
  assert (NoDup (JsObject.keys o2)) as Hnd2.
  { eapply Permutation_NoDup; [|exact Hnd]. apply Permutation_map. exact Hperm. }
  destruct (JsObject.get k o1) as [v|] eqn:H1.
  - symmetry. apply In_get; [assumption|].
    eapply Permutation_in; [exact Hperm|]. now apply get_In.
  - destruct (JsObject.get k o2) as [v|] eqn:H2; [|reflexivity].
    apply get_In in H2. apply Permutation_sym in Hperm.
    apply (Permutation_in _ Hperm), (In_get _ _ _ Hnd) in H2. congruence.
Qed.

End object_facts.

(** ** Lists of urls and route entries *)

Lemma includes_In l url : includes l url = true <-> In url l.
Proof.
  unfold includes. rewrite existsb_exists. split.
  - intros (x & Hx & Heq). apply String.eqb_eq in Heq. congruence.
  - intros Hin. exists url. split; [assumption|apply String.eqb_refl].
Qed.

Lemma not_includes_In l url : negb (includes l url) = true <-> ~ In url l.
Proof.
  rewrite <- includes_In. destruct (includes l url); simpl; split; congruence.
Qed.

Lemma filter_twice {A : Type} (f : A -> bool) l :
  List.filter f (List.filter f l) = List.filter f l.
Proof.
  induction l as [|x l IH]; simpl; [reflexivity|].
  destruct (f x) eqn:Hx; simpl; rewrite ?Hx, IH; reflexivity.
Qed.

Lemma filter_sublist {A : Type} (f : A -> bool) l : sublist (List.filter f l) l.
Proof.
  induction l as [|x l IH]; simpl; [constructor|].
  destruct (f x); constructor; assumption.
Qed.

Lemma imports_or_empty_set l route :
  imports_or_empty (set_imports (nonempty_or_undefined l) route) = l.
Proof. destruct l; reflexivity. Qed.

Lemma set_imports_twice a b route :
  set_imports a (set_imports b route) = set_imports a route.
Proof. reflexivity. Qed.

Lemma set_imports_same route : set_imports (imports route) route = route.
Proof. destruct route; reflexivity. Qed.

Lemma nonempty_or_undefined_not_empty l : nonempty_or_undefined l <> Some [].
Proof. destruct l; simpl; congruence. Qed.

(** ** The skeleton of the routes is left alone *)

Lemma skeleton_update k v routes :
  skeleton (JsObject.update k (set_imports v) routes) = skeleton routes.
Proof.
  unfold skeleton. induction routes as [|[k' r] routes IH]; simpl; [reflexivity|].
  destruct (String.eqb k k'); simpl; [reflexivity|]. now rewrite IH.
Qed.

Lemma skeleton_keys routes : JsObject.keys (skeleton routes) = JsObject.keys routes.
Proof.
  unfold skeleton, JsObject.keys. rewrite List.map_map. reflexivity.
Qed.

Lemma skeleton_get k routes :
  JsObject.get k (skeleton routes) = set_imports None <$> JsObject.get k routes.
Proof. apply get_map_values. Qed.

Lemma skeleton_parent_of routes routes' k :
  skeleton routes' = skeleton routes -> parent_of routes' k = parent_of routes k.
Proof.
  intros Hs. unfold parent_of.
  pose proof (skeleton_get k routes) as H1.
  pose proof (skeleton_get k routes') as H2.
  rewrite Hs in H2. rewrite H1 in H2.
  destruct (JsObject.get k routes) as [r|], (JsObject.get k routes') as [r'|];
    simpl in H2; try discriminate; [|reflexivity].
  assert (parentId r = parentId r') as Hpar
    by (change (parentId (set_imports None r) = parentId (set_imports None r'));
        congruence).
  now rewrite Hpar.
Qed.

Lemma skeleton_same_keys routes routes' :
  skeleton routes' = skeleton routes -> JsObject.keys routes' = JsObject.keys routes.
Proof. intros Hs. rewrite <- (skeleton_keys routes'), Hs. apply skeleton_keys. Qed.

Lemma optimizeRouteImports_skeleton fuel :
  forall k routes parentImports cache l routes' cache',
    optimizeRouteImports fuel k routes parentImports cache = Returned (l, routes', cache') ->
    skeleton routes' = skeleton routes.
Proof.
  induction fuel as [|fuel IH]; intros k routes pI cache l routes' cache' Hrun;
    simpl in Hrun; [discriminate|].
  destruct (cache !! k) eqn:Hc.
  { injection Hrun as <- <- <-. reflexivity. }
  destruct (JsObject.get k routes) as [route|] eqn:Hg; [|discriminate].
  destruct (truthy (parentId route)) as [parent|] eqn:Hp.
  - destruct (optimizeRouteImports fuel parent routes pI cache)
      as [[[lp Rp] cp]| |] eqn:Hrec; simpl in Hrun; try discriminate.
    injection Hrun as <- <- <-. rewrite skeleton_update. eauto.
  - simpl in Hrun. injection Hrun as <- <- <-. apply skeleton_update.
Qed.

Lemma optimizeEach_skeleton fuel entryImports :
  forall todo routes cache routes' cache',
    optimizeEach fuel todo routes entryImports cache = Returned (routes', cache') ->
    skeleton routes' = skeleton routes.
Proof.
  induction todo as [|key todo IH]; intros routes cache routes' cache' Hrun;
    simpl in Hrun.
  { injection Hrun as <- <-. reflexivity. }
  destruct (optimizeRouteImports fuel key routes entryImports cache)
    as [[[l R1] c1]| |] eqn:Hstep; simpl in Hrun; try discriminate.
  apply IH in Hrun. rewrite Hrun. eapply optimizeRouteImports_skeleton; eauto.
Qed.

Lemma optimizeRoutes_skeleton fuel routes entryImports optimized :
  optimizeRoutes fuel routes entryImports = Returned optimized ->
  skeleton optimized = skeleton routes.
Proof.
  unfold optimizeRoutes. intros Hrun.
  destruct (optimizeEach fuel (JsObject.keys routes) routes entryImports ∅)
    as [[R1 c1]| |] eqn:Hloop; simpl in Hrun; try discriminate.
  injection Hrun as <-. eapply optimizeEach_skeleton; eauto.
Qed.

(** ** The pass computes the pruned lists *)

Section pass.
Variable raw : Routes.
Variable entryImports : list string.

Lemma Pruned_det k l1 l2 :
  Pruned raw entryImports k l1 -> Pruned raw entryImports k l2 -> l1 = l2.
Proof.
  intros H1. revert l2.
  induction H1 as [k route Hg Hp|k route parent lp Hg Hp Hparent IH];
    intros l2 H2; inversion H2; subst; try congruence.
  replace route0 with route in * by congruence.
  replace parent0 with parent in * by congruence.
  rewrite (IH _ H1). reflexivity.
Qed.

Lemma Pruned_route k l :
  Pruned raw entryImports k l -> exists route, JsObject.get k raw = Some route.
Proof. destruct 1; eauto. Qed.

Lemma pass_inv_start : pass_inv raw entryImports raw ∅.
Proof.
  split.
  - intros k l Hl. rewrite lookup_empty in Hl. discriminate.
  - intros k. left. reflexivity.
  - intros k l Hl. rewrite lookup_empty in Hl. discriminate.
Qed.

(** A route of the pass is a route of [raw] with the same parent. *)
Lemma pass_inv_parent routes cache k route :
  pass_inv raw entryImports routes cache ->
  JsObject.get k routes = Some route ->
  exists route0, JsObject.get k raw = Some route0 /\ parentId route = parentId route0.
Proof.
  intros Hinv Hg. destruct (inv_route _ _ _ _ Hinv k) as [Heq|(r0 & l & Hr0 & _ & Hr)].
  - exists route. split; congruence.
  - exists r0. split; [assumption|]. rewrite Hg in Hr. injection Hr as ->. reflexivity.
Qed.

(** The filtering step, once the list [cov] to filter against is the
    coverage list of [k]. *)
Lemma prune_step k cov routes cache route route0 :
  pass_inv raw entryImports routes cache ->
  JsObject.get k raw = Some route0 ->
  Pruned raw entryImports k
    (List.filter (fun url => negb (includes cov url)) (imports_or_empty route0)) ->
  let l := List.filter (fun url => negb (includes cov url))
             (imports_or_empty (default route (JsObject.get k routes))) in
  Pruned raw entryImports k l /\
  pass_inv raw entryImports
    (JsObject.update k (set_imports (nonempty_or_undefined l)) routes)
    (<[k := l]> cache).
Proof.
  intros Hinv Hraw Hcov l.
  assert (l = List.filter (fun url => negb (includes cov url)) (imports_or_empty route0)
          /\ exists v, JsObject.get k routes = Some (set_imports v route0)
                       \/ JsObject.get k routes = Some route0) as [Hl Hshape].
  { subst l. destruct (inv_route _ _ _ _ Hinv k) as [Heq|(r0 & l0 & Hr0 & Hp0 & Hr)].
    - rewrite Heq, Hraw. simpl. split; [reflexivity|]. exists None. now right.
    - assert (r0 = route0) by congruence. subst r0.
      rewrite Hr. simpl. rewrite imports_or_empty_set.
      rewrite (Pruned_det _ _ _ Hp0 Hcov), filter_twice.
      split; [reflexivity|]. eexists. left. reflexivity. }
  rewrite <- Hl in Hcov. split; [assumption|].
  assert (JsObject.get k (JsObject.update k (set_imports (nonempty_or_undefined l)) routes)
          = Some (set_imports (nonempty_or_undefined l) route0)) as Hnew.
  { rewrite get_update_eq. destruct Hshape as [v [-> | ->]]; reflexivity. }
  split.
  - intros k' l' Hl'. destruct (decide (k = k')) as [<-|Hne].
    + rewrite lookup_insert_eq in Hl'. injection Hl' as <-. assumption.
    + rewrite lookup_insert_ne in Hl' by assumption. eapply inv_cached; eauto.
  - intros k'. destruct (decide (k = k')) as [<-|Hne].
    + right. exists route0, l. auto.
    + rewrite get_update_ne by assumption. eapply inv_route; eauto.
  - intros k' l' Hl'. destruct (decide (k = k')) as [<-|Hne].
    + rewrite lookup_insert_eq in Hl'. injection Hl' as <-.
      eexists. split; [exact Hnew|reflexivity].
    + rewrite lookup_insert_ne in Hl' by assumption.
      rewrite get_update_ne by assumption. eapply inv_stored; eauto.
Qed.

Lemma optimizeRouteImports_inv fuel :
  forall k routes cache l routes' cache',
    pass_inv raw entryImports routes cache ->
    optimizeRouteImports fuel k routes entryImports cache = Returned (l, routes', cache') ->
    pass_inv raw entryImports routes' cache' /\
    cache' !! k = Some l /\
    (forall k' l', cache !! k' = Some l' -> cache' !! k' = Some l').
Proof.
  induction fuel as [|fuel IH]; intros k routes cache l routes' cache' Hinv Hrun;
    simpl in Hrun; [discriminate|].
  destruct (cache !! k) eqn:Hc.
  { injection Hrun as <- <- <-. auto. }
  destruct (JsObject.get k routes) as [route|] eqn:Hg; [|discriminate].
  destruct (pass_inv_parent _ _ _ _ Hinv Hg) as (route0 & Hraw & Hpar).
  destruct (truthy (parentId route)) as [parent|] eqn:Hp.
  - destruct (optimizeRouteImports fuel parent routes entryImports cache)
      as [[[lp Rp] cp]| |] eqn:Hrec; simpl in Hrun; try discriminate.
    injection Hrun as <- <- <-.
    destruct (IH _ _ _ _ _ _ Hinv Hrec) as (Hinv' & Hlp & Hmono).
    destruct (prune_step k (entryImports ++ lp) Rp cp route route0 Hinv' Hraw)
      as [Hpr Hinv''].
    { apply Pruned_child with (parent := parent); [assumption|congruence|].
      eapply inv_cached; eauto. }
    split; [exact Hinv''|]. split; [apply lookup_insert_eq|].
    intros k' l' Hl'. rewrite lookup_insert_ne by congruence. auto.
  - simpl in Hrun. injection Hrun as <- <- <-.
    destruct (prune_step k entryImports routes cache route route0 Hinv Hraw)
      as [Hpr Hinv''].
    { apply Pruned_root; [assumption|congruence]. }
    split; [exact Hinv''|]. split; [apply lookup_insert_eq|].
    intros k' l' Hl'. rewrite lookup_insert_ne by congruence. auto.
Qed.

Lemma optimizeEach_inv fuel :
  forall todo routes cache routes' cache',
    pass_inv raw entryImports routes cache ->
    optimizeEach fuel todo routes entryImports cache = Returned (routes', cache') ->
    pass_inv raw entryImports routes' cache' /\
    (forall k, In k todo -> is_Some (cache' !! k)) /\
    (forall k' l', cache !! k' = Some l' -> cache' !! k' = Some l').
Proof.
  induction todo as [|key todo IH]; intros routes cache routes' cache' Hinv Hrun;
    simpl in Hrun.
  { injection Hrun as <- <-. split; [assumption|]. split; [intros k []|auto]. }
  destruct (optimizeRouteImports fuel key routes entryImports cache)
    as [[[l R1] c1]| |] eqn:Hstep; simpl in Hrun; try discriminate.
  destruct (optimizeRouteImports_inv _ _ _ _ _ _ _ Hinv Hstep) as (Hinv1 & Hkey & Hmono1).
  destruct (IH _ _ _ _ Hinv1 Hrun) as (Hinv' & Hall & Hmono).
  split; [assumption|]. split; [|auto].
  intros k [<-|Hin]; [|auto]. rewrite (Hmono _ _ Hkey). eauto.
Qed.

(** The state in which a returning pass ends. *)
Lemma optimizeRoutes_final fuel optimized :
  optimizeRoutes fuel raw entryImports = Returned optimized ->
  exists cache,
    pass_inv raw entryImports optimized cache /\
    forall k, In k (JsObject.keys raw) -> is_Some (cache !! k).
Proof.
  unfold optimizeRoutes. intros Hrun.
  destruct (optimizeEach fuel (JsObject.keys raw) raw entryImports ∅)
    as [[R1 c1]| |] eqn:Hloop; simpl in Hrun; try discriminate.
  injection Hrun as <-.
  destruct (optimizeEach_inv _ _ _ _ _ _ pass_inv_start Hloop) as (Hinv & Hall & _).
  eauto.
Qed.

(** Every route ends with its pruned list in place of its raw list. *)
Lemma optimizeRoutes_pruned fuel optimized k route :
  optimizeRoutes fuel raw entryImports = Returned optimized ->
  JsObject.get k raw = Some route ->
  exists l,
    Pruned raw entryImports k l /\
    JsObject.get k optimized = Some (set_imports (nonempty_or_undefined l) route).
Proof.
  intros Hrun Hg.
  destruct (optimizeRoutes_final _ _ Hrun) as (cache & Hinv & Hall).
  destruct (Hall k (get_Some_keys _ _ _ Hg)) as [l Hl].
  exists l. split; [eapply inv_cached; eauto|].
  destruct (inv_stored _ _ _ _ Hinv k l Hl) as (r & Hr & Himp).
  destruct (inv_route _ _ _ _ Hinv k) as [Heq|(r0 & l0 & Hr0 & Hp0 & Hr')].
  - rewrite Hr. rewrite Heq, Hg in Hr. injection Hr as <-.
    rewrite <- Himp, set_imports_same. reflexivity.
  - rewrite Hr'. replace r0 with route by congruence.
    rewrite (Pruned_det _ _ _ Hp0 (inv_cached _ _ _ _ Hinv k l Hl)). reflexivity.
Qed.

End pass.

(** The imports a route ends with are its raw imports filtered against its
    coverage list, and absent when nothing is left. *)
Lemma optimizeRoutes_filtered fuel routes entryImports optimized k route :
  optimizeRoutes fuel routes entryImports = Returned optimized ->
  JsObject.get k routes = Some route ->
  JsObject.get k optimized =
    Some (set_imports
            (nonempty_or_undefined
               (List.filter
                  (fun url => negb (includes (coverage routes optimized entryImports k) url))
                  (imports_or_empty route)))
            route).
Proof.
  intros Hrun Hg.
  destruct (optimizeRoutes_pruned _ _ _ _ _ _ Hrun Hg) as (l & Hp & Hopt).
  rewrite Hopt. do 3 f_equal.
  unfold coverage, parent_of. rewrite Hg.
  inversion Hp as [k' r Hg' Hpar|k' r parent lp Hg' Hpar Hparent]; subst;
    replace r with route in * by congruence; rewrite Hpar; [reflexivity|].
  destruct (Pruned_route _ _ _ _ Hparent) as [rp Hrp].
  destruct (optimizeRoutes_pruned _ _ _ _ _ _ Hrun Hrp) as (lp' & Hp' & Hopt').
  unfold imports_of. rewrite Hopt', imports_or_empty_set.
  rewrite (Pruned_det _ _ _ _ _ Hp' Hparent). reflexivity.
Qed.

(** ** Parent chains *)

Lemma follow_add routes a b k :
  follow routes (a + b) k =
  match follow routes a k with
  | Some x => follow routes b x
  | None => None
  end.
Proof.
  revert k. induction a as [|a IH]; intros k; simpl; [reflexivity|].
  destruct (parent_of routes k); auto.
Qed.

Lemma follow_prefix routes a b k :
  is_Some (follow routes (a + b) k) -> is_Some (follow routes a k).
Proof.
  rewrite follow_add. destruct (follow routes a k); [eauto|].
  intros [? ?]. discriminate.
Qed.

Lemma follow_skeleton routes routes' n k :
  skeleton routes' = skeleton routes -> follow routes' n k = follow routes n k.
Proof.
  intros Hs. revert k. induction n as [|n IH]; intros k; simpl; [reflexivity|].
  rewrite (skeleton_parent_of _ _ k Hs). destruct (parent_of routes k); auto.
Qed.

Lemma parent_of_key routes k parent :
  parent_of routes k = Some parent -> In k (JsObject.keys routes).
Proof.
  unfold parent_of. destruct (JsObject.get k routes) eqn:Hg; [|discriminate].
  intros _. eapply get_Some_keys; eauto.
Qed.

(** A chain that visits an id twice goes on for ever. *)
Lemma revisit_forever routes k i j x :
  i < j -> follow routes i k = Some x -> follow routes j k = Some x ->
  forall n, is_Some (follow routes n k).
Proof.
  intros Hij Hi Hj n.
  assert (follow routes (j - i) x = Some x) as Hloop.
  { replace j with (i + (j - i)) in Hj by lia. rewrite follow_add, Hi in Hj. exact Hj. }
  assert (forall q, follow routes (q * (j - i)) x = Some x) as Hq.
  { induction q as [|q IH]; simpl; [reflexivity|].
    rewrite follow_add, Hloop. exact IH. }
  apply follow_prefix with (b := i + n * (j - i) - n).
  replace (n + (i + n * (j - i) - n)) with (i + n * (j - i)) by nia.
  rewrite follow_add, Hi, Hq. eauto.
Qed.

(** Without a revisit a chain ends within as many links as there are
    routes. *)
Lemma chain_ends_aux routes :
  acyclic routes ->
  forall m seen k,
    length (JsObject.keys routes) <= length seen + m ->
    NoDup seen -> incl seen (JsObject.keys routes) ->
    (forall s, In s seen -> exists j, follow routes (S j) s = Some k) ->
    exists n, n <= m /\ follow routes (S n) k = None.
Proof.
  intros Hac. induction m as [|m IH]; intros seen k Hlen Hnd Hincl Hreach;
    (destruct (parent_of routes k) as [parent|] eqn:Hp;
     [|exists 0; split; [lia|simpl; now rewrite Hp]]).
  all: assert (In k (JsObject.keys routes)) as Hk by (eapply parent_of_key; eauto).
  all: assert (~ In k seen) as Hfresh
         by (intros Hin; destruct (Hreach k Hin) as [j Hj];
             apply (Hac k 0 (S j) k); [assumption|lia|reflexivity|exact Hj]).
  all: assert (NoDup (k :: seen)) as Hnd' by (constructor; assumption).
  all: assert (incl (k :: seen) (JsObject.keys routes)) as Hincl'
         by (intros y [<-|Hy]; auto).
  - pose proof (NoDup_incl_length Hnd' Hincl') as Hle. simpl in Hle. lia.
  - destruct (IH (k :: seen) parent) as (n & Hn & Hend);
      [simpl; lia|assumption|assumption| |].
    + intros s [<-|Hs].
      * exists 0. simpl. now rewrite Hp.
      * destruct (Hreach s Hs) as [j Hj]. exists (S j).
        replace (S (S j)) with (S j + 1) by lia.
        rewrite follow_add, Hj. simpl. now rewrite Hp.
    + exists (S n). split; [lia|].
      change (follow routes (S (S n)) k) with
        (match parent_of routes k with
         | Some p => follow routes (S n) p | None => None end).
      now rewrite Hp.
Qed.

Lemma chain_ends routes k :
  acyclic routes ->
  exists n, n <= length (JsObject.keys routes) /\ follow routes (S n) k = None.
Proof.
  intros Hac. apply (chain_ends_aux routes Hac _ [] k).
  - simpl. lia.
  - constructor.
  - intros y [].
  - intros s [].
Qed.

(** ** Termination and divergence of the recursion *)

Lemma finishes_within routes parentImports :
  forall n k cache fuel,
    follow routes (S n) k = None -> n < fuel ->
    finished (optimizeRouteImports fuel k routes parentImports cache) = true.
Proof.
  induction n as [|n IH]; intros k cache fuel Hend Hfuel;
    (destruct fuel as [|fuel]; [lia|]); simpl;
    (destruct (cache !! k); [reflexivity|]);
    simpl in Hend; unfold parent_of in Hend;
    (destruct (JsObject.get k routes) as [route|]; [|reflexivity]);
    (destruct (truthy (parentId route)) as [parent|]; [|reflexivity]).
  - discriminate.
  - assert (finished (optimizeRouteImports fuel parent routes parentImports cache) = true)
      as Hrec by (apply IH; [exact Hend|lia]).
    destruct (optimizeRouteImports fuel parent routes parentImports cache)
      as [[[lp Rp] cp]| |]; simpl in *; congruence.
Qed.

Lemma diverges routes parentImports :
  forall fuel k,
    (forall n, is_Some (follow routes n k)) ->
    optimizeRouteImports fuel k routes parentImports ∅ = OutOfFuel.
Proof.
  induction fuel as [|fuel IH]; intros k Hall; simpl; [reflexivity|].
  rewrite lookup_empty.
  pose proof (Hall 1) as [p Hp]. simpl in Hp. unfold parent_of in Hp.
  destruct (JsObject.get k routes) as [route|] eqn:Hg; [|discriminate].
  destruct (truthy (parentId route)) as [parent|] eqn:Hpar; [|discriminate].
  rewrite IH; [reflexivity|].
  intros n. specialize (Hall (S n)). simpl in Hall. unfold parent_of in Hall.
  rewrite Hg, Hpar in Hall. exact Hall.
Qed.

(** ** No lookup of a missing route *)

(** Every link the optimizer follows leads to a route. *)
Lemma parents_present_links routes :
  parents_present routes ->
  forall k parent, parent_of routes k = Some parent -> In parent (JsObject.keys routes).
Proof.
  intros Hpp k parent. unfold parent_of.
  destruct (JsObject.get k routes) as [route|] eqn:Hg; [|discriminate].
  unfold truthy. destruct (parentId route) as [p|] eqn:Hp; [|discriminate].
  destruct (String.eqb p EmptyString); [discriminate|].
  intros [= <-]. eapply Hpp; eauto.
Qed.

Lemma optimizeRouteImports_no_throw parentImports fuel :
  forall k routes cache e,
    (forall k' parent, parent_of routes k' = Some parent ->
                       In parent (JsObject.keys routes)) ->
    In k (JsObject.keys routes) ->
    optimizeRouteImports fuel k routes parentImports cache <> Thrown e.
Proof.
  induction fuel as [|fuel IH]; intros k routes cache e Hlinks Hk; simpl; [discriminate|].
  destruct (cache !! k); [discriminate|].
  destruct (keys_get_Some _ _ Hk) as [route Hg]. rewrite Hg.
  destruct (truthy (parentId route)) as [parent|] eqn:Hp; [|discriminate].
  assert (In parent (JsObject.keys routes)) as Hparent
    by (apply (Hlinks k); unfold parent_of; now rewrite Hg).
  specialize (IH parent routes cache).
  destruct (optimizeRouteImports fuel parent routes parentImports cache)
    as [[[lp Rp] cp]|e'|]; simpl; try discriminate.
  exfalso. eapply IH; eauto.
Qed.

Lemma optimizeEach_no_throw entryImports fuel :
  forall todo routes cache e,
    (forall k' parent, parent_of routes k' = Some parent ->
                       In parent (JsObject.keys routes)) ->
    incl todo (JsObject.keys routes) ->
    optimizeEach fuel todo routes entryImports cache <> Thrown e.
Proof.
  induction todo as [|key todo IH]; intros routes cache e Hlinks Hincl; simpl;
    [discriminate|].
  pose proof (optimizeRouteImports_no_throw entryImports fuel key routes cache) as Hstep.
  destruct (optimizeRouteImports fuel key routes entryImports cache)
    as [[[l R1] c1]|e'|] eqn:Hrun; simpl; try discriminate.
  - pose proof (optimizeRouteImports_skeleton _ _ _ _ _ _ _ _ Hrun) as Hs.
    apply IH.
    + intros k' parent Hp. rewrite (skeleton_same_keys _ _ Hs).
      rewrite (skeleton_parent_of _ _ k' Hs) in Hp. eauto.
    + rewrite (skeleton_same_keys _ _ Hs). intros y Hy. apply Hincl. now right.
  - exfalso. eapply Hstep; eauto. apply Hincl. now left.
Qed.

(** ** A pass over a forest returns *)

Lemma optimizeEach_finishes entryImports fuel :
  forall todo routes cache,
    (forall k, In k todo -> exists n, n < fuel /\ follow routes (S n) k = None) ->
    finished (optimizeEach fuel todo routes entryImports cache) = true.
Proof.
  induction todo as [|key todo IH]; intros routes cache Hends; simpl; [reflexivity|].
  destruct (Hends key (or_introl eq_refl)) as (n & Hn & Hend).
  pose proof (finishes_within routes entryImports n key cache fuel Hend Hn) as Hfin.
  destruct (optimizeRouteImports fuel key routes entryImports cache)
    as [[[l R1] c1]|e'|] eqn:Hrun; simpl in *; try congruence.
  apply IH. intros k Hk.
  destruct (Hends k (or_intror Hk)) as (n' & Hn' & Hend').
  exists n'. split; [assumption|].
  change (follow R1 (S n') k = None).
  rewrite (follow_skeleton _ _ _ _ (optimizeRouteImports_skeleton _ _ _ _ _ _ _ _ Hrun)).
  exact Hend'.
Qed.

Lemma optimizeRoutes_returns routes entryImports :
  acyclic routes -> parents_present routes ->
  exists optimized,
    optimizeRoutes (S (length (JsObject.keys routes))) routes entryImports
    = Returned optimized.
Proof.
  intros Hac Hpp. unfold optimizeRoutes.
  pose proof (optimizeEach_finishes entryImports (S (length (JsObject.keys routes)))
                (JsObject.keys routes) routes ∅) as Hfin.
  pose proof (optimizeEach_no_throw entryImports (S (length (JsObject.keys routes)))
                (JsObject.keys routes) routes ∅) as Hsafe.
  destruct (optimizeEach (S (length (JsObject.keys routes))) (JsObject.keys routes)
              routes entryImports ∅) as [[R1 c1]|e|]; simpl.
  - eauto.
  - exfalso. eapply Hsafe; [apply parents_present_links; assumption| |reflexivity].
    intros y Hy. exact Hy.
  - assert (false = true) as Habs; [|discriminate].
    apply Hfin. intros k _. destruct (chain_ends routes k Hac) as (n & Hn & Hend).
    exists n. split; [lia|assumption].
Qed.

(** ** A second pass replays the first *)

Lemma skeleton_get_Some routes routes' k route :
  skeleton routes' = skeleton routes ->
  JsObject.get k routes = Some route ->
  exists route', JsObject.get k routes' = Some route' /\
                 parentId route' = parentId route.
Proof.
  intros Hs Hg.
  pose proof (skeleton_get k routes) as H1.
  pose proof (skeleton_get k routes') as H2.
  rewrite Hs, H1, Hg in H2.
  destruct (JsObject.get k routes') as [r'|]; simpl in H2; [|discriminate].
  exists r'. split; [reflexivity|].
  change (parentId (set_imports None r') = parentId (set_imports None route)).
  congruence.
Qed.

Lemma imports_or_empty_stored route l :
  imports route = nonempty_or_undefined l -> imports_or_empty route = l.
Proof. unfold imports_or_empty. intros ->. destruct l; reflexivity. Qed.

Section second_pass.
Variable raw : Routes.
Variable entryImports : list string.
Variable optimized : Routes.
Variable final : ImportsCache.
Hypothesis Hfinal : pass_inv raw entryImports optimized final.

Lemma replay_step fuel :
  forall k routes cache l routes' cache',
    pass_inv raw entryImports routes cache ->
    skeleton optimized = skeleton routes ->
    optimizeRouteImports fuel k routes entryImports cache = Returned (l, routes', cache') ->
    (forall k' l', cache' !! k' = Some l' -> final !! k' = Some l') ->
    optimizeRouteImports fuel k optimized entryImports cache
    = Returned (l, optimized, cache').
Proof.
  induction fuel as [|fuel IH]; intros k routes cache l routes' cache' Hinv Hs Hrun Hsub;
    [discriminate|].
  pose proof (optimizeRouteImports_inv _ _ _ _ _ _ _ _ _ Hinv Hrun) as (Hinv' & Hkl & _).
  simpl in Hrun. simpl.
  destruct (cache !! k) eqn:Hc.
  { injection Hrun as <- <- <-. reflexivity. }
  destruct (JsObject.get k routes) as [route|] eqn:Hg; [|discriminate].
  destruct (skeleton_get_Some _ _ _ _ Hs Hg) as (route2 & Hg2 & Hpar2).
  rewrite Hg2, Hpar2.
  destruct (inv_stored _ _ _ _ Hfinal k l (Hsub _ _ Hkl)) as (r & Hr & Himp).
  assert (r = route2) by congruence. subst r.
  assert (JsObject.update k (set_imports (nonempty_or_undefined l)) optimized = optimized)
    as Hid.
  { apply update_id. intros v Hv. replace v with route2 by congruence.
    rewrite <- Himp. apply set_imports_same. }
  destruct (truthy (parentId route)) as [parent|] eqn:Hp.
  - destruct (optimizeRouteImports fuel parent routes entryImports cache)
      as [[[lp Rp] cp]| |] eqn:Hrec; simpl in Hrun; try discriminate.
    pose proof (optimizeRouteImports_inv _ _ _ _ _ _ _ _ _ Hinv Hrec) as (Hinvp & _ & _).
    rewrite (IH _ _ _ _ _ _ Hinv Hs Hrec).
    + simpl. rewrite Hg2. simpl. rewrite (imports_or_empty_stored _ _ Himp).
      injection Hrun as Hl <- <-.
      assert (List.filter (fun url => negb (includes (entryImports ++ lp) url)) l = l)
        as Hfix by (rewrite <- Hl; apply filter_twice).
      rewrite Hl, Hfix, Hid. reflexivity.
    + intros k' l' Hl'. destruct (decide (k = k')) as [<-|Hne].
      * rewrite (Hsub _ _ Hkl). f_equal.
        apply (Pruned_det raw entryImports k);
          [exact (inv_cached _ _ _ _ Hinv' _ _ Hkl)
          |exact (inv_cached _ _ _ _ Hinvp _ _ Hl')].
      * apply Hsub. injection Hrun as _ _ <-.
        rewrite lookup_insert_ne by assumption. exact Hl'.
  - simpl in Hrun. simpl. rewrite Hg2. simpl.
    rewrite (imports_or_empty_stored _ _ Himp).
    injection Hrun as Hl <- <-.
    assert (List.filter (fun url => negb (includes entryImports url)) l = l)
      as Hfix by (rewrite <- Hl; apply filter_twice).
    rewrite Hl, Hfix, Hid. reflexivity.
Qed.

Lemma replay_each fuel :
  forall todo routes cache routes' cache',
    pass_inv raw entryImports routes cache ->
    skeleton optimized = skeleton routes ->
    optimizeEach fuel todo routes entryImports cache = Returned (routes', cache') ->
    (forall k' l', cache' !! k' = Some l' -> final !! k' = Some l') ->
    optimizeEach fuel todo optimized entryImports cache = Returned (optimized, cache').
Proof.
  induction todo as [|key todo IH]; intros routes cache routes' cache' Hinv Hs Hrun Hsub;
    simpl in Hrun; simpl.
  { injection Hrun as _ <-. reflexivity. }
  destruct (optimizeRouteImports fuel key routes entryImports cache)
    as [[[l R1] c1]| |] eqn:Hstep; simpl in Hrun; try discriminate.
  destruct (optimizeRouteImports_inv _ _ _ _ _ _ _ _ _ Hinv Hstep) as (Hinv1 & _ & _).
  destruct (optimizeEach_inv _ _ _ _ _ _ _ _ Hinv1 Hrun) as (_ & _ & Hmono).
  rewrite (replay_step _ _ _ _ _ _ _ Hinv Hs Hstep) by auto.
  simpl. eapply IH; eauto.
  rewrite Hs. symmetry. eapply optimizeRouteImports_skeleton; eauto.
Qed.

End second_pass.

(** ** Fuel *)

Lemma optimizeRouteImports_fuel_S fuel :
  forall k routes parentImports cache result,
    optimizeRouteImports fuel k routes parentImports cache = Returned result ->
    optimizeRouteImports (S fuel) k routes parentImports cache = Returned result.
Proof.
  induction fuel as [|fuel IH]; intros k routes pI cache result Hrun; [discriminate|].
  change (optimizeRouteImports (S (S fuel)) k routes pI cache) with
    (match cache !! k with
     | Some cached => Returned (cached, routes, cache)
     | None =>
         match JsObject.get k routes with
         | None => Thrown TypeError
         | Some route =>
             '(parentImports', routes', importsCache') ←
               match truthy (parentId route) with
               | Some parent =>
                   '(fromParent, routes', importsCache') ←
                     optimizeRouteImports (S fuel) parent routes pI cache;
                   Returned (pI ++ fromParent, routes', importsCache')
               | None => Returned (pI, routes, cache)
               end;
             let route' := default route (JsObject.get k routes') in
             let routeImports :=
               List.filter (fun url => negb (includes parentImports' url))
                           (imports_or_empty route') in
             Returned (routeImports,
                       JsObject.update k
                         (set_imports (nonempty_or_undefined routeImports)) routes',
                       <[k := routeImports]> importsCache')
         end
     end).
  simpl in Hrun.
  destruct (cache !! k); [exact Hrun|].
  destruct (JsObject.get k routes) as [route|]; [|exact Hrun].
  destruct (truthy (parentId route)) as [parent|]; [|exact Hrun].
  destruct (optimizeRouteImports fuel parent routes pI cache) as [r| |] eqn:Hrec;
    simpl in Hrun; try discriminate.
  rewrite (IH _ _ _ _ _ Hrec). exact Hrun.
Qed.

Lemma optimizeRouteImports_fuel_le fuel fuel' k routes parentImports cache result :
  fuel <= fuel' ->
  optimizeRouteImports fuel k routes parentImports cache = Returned result ->
  optimizeRouteImports fuel' k routes parentImports cache = Returned result.
Proof.
  induction 1 as [|fuel' _ IH]; [auto|].
  intros Hrun. apply optimizeRouteImports_fuel_S. auto.
Qed.

Lemma optimizeEach_fuel_le fuel fuel' entryImports :
  fuel <= fuel' ->
  forall todo routes cache result,
    optimizeEach fuel todo routes entryImports cache = Returned result ->
    optimizeEach fuel' todo routes entryImports cache = Returned result.
Proof.
  intros Hle. induction todo as [|key todo IH]; intros routes cache result Hrun;
    simpl in *; [exact Hrun|].
  destruct (optimizeRouteImports fuel key routes entryImports cache)
    as [[[l R1] c1]| |] eqn:Hstep; simpl in Hrun; try discriminate.
  rewrite (optimizeRouteImports_fuel_le _ _ _ _ _ _ _ Hle Hstep). simpl. auto.
Qed.

(** More fuel does not change what a pass returns. *)
Lemma optimizeRoutes_fuel_le fuel fuel' routes entryImports optimized :
  fuel <= fuel' ->
  optimizeRoutes fuel routes entryImports = Returned optimized ->
  optimizeRoutes fuel' routes entryImports = Returned optimized.
Proof.
  unfold optimizeRoutes. intros Hle Hrun.
  destruct (optimizeEach fuel (JsObject.keys routes) routes entryImports ∅)
    as [[R1 c1]| |] eqn:Hloop; simpl in Hrun; try discriminate.
  rewrite (optimizeEach_fuel_le _ _ _ Hle _ _ _ _ Hloop). exact Hrun.
Qed.

(** On a forest without dangling edges the pass returns. *)
Lemma optimizeRoutes_passes routes entryImports :
  acyclic routes -> parents_present routes ->
  exists optimized, passes_to routes entryImports optimized.
Proof.
  intros Hac Hpp.
  destruct (optimizeRoutes_returns routes entryImports Hac Hpp) as [optimized Hrun].
  exists optimized. intros fuel Hfuel.
  eapply optimizeRoutes_fuel_le; [|exact Hrun]. lia.
Qed.

Lemma passes_to_run routes entryImports optimized :
  passes_to routes entryImports optimized ->
  optimizeRoutes (S (length (JsObject.keys routes))) routes entryImports
  = Returned optimized.
Proof. intros Hpass. apply Hpass. lia. Qed.

Lemma acyclicb_sound routes : acyclicb routes = true -> acyclic routes.
Proof.
  unfold acyclicb. rewrite forallb_forall. intros Hall k i j x Hk Hij Hi Hj.
  specialize (Hall k Hk).
  destruct (revisit_forever routes k i j x Hij Hi Hj (S (length (JsObject.keys routes))))
    as [y Hy].
  rewrite Hy in Hall. discriminate.
Qed.

Lemma parents_presentb_sound routes :
  parents_presentb routes = true -> parents_present routes.
Proof.
  unfold parents_presentb, parents_present. rewrite forallb_forall.
  intros Hall k route parent Hg Hp.
  specialize (Hall _ (get_In _ _ _ Hg)). simpl in Hall. rewrite Hp in Hall.
  apply existsb_exists in Hall as (x & Hx & Heq).
  apply String.eqb_eq in Heq. congruence.
Qed.

(** ** The laws of the optimizer *)

Lemma imports_of_optimized fuel routes entryImports optimized k route :
  optimizeRoutes fuel routes entryImports = Returned optimized ->
  JsObject.get k routes = Some route ->
  imports_of optimized k =
    List.filter (fun url => negb (includes (coverage routes optimized entryImports k) url))
                (imports_or_empty route).
Proof.
  intros Hrun Hg. unfold imports_of.
  rewrite (optimizeRoutes_filtered _ _ _ _ _ _ Hrun Hg). apply imports_or_empty_set.
Qed.

Lemma optimized_route fuel routes entryImports optimized k :
  optimizeRoutes fuel routes entryImports = Returned optimized ->
  In k (JsObject.keys optimized) ->
  exists route, JsObject.get k routes = Some route.
Proof.
  intros Hrun Hk. apply keys_get_Some.
  rewrite <- (skeleton_same_keys _ _ (optimizeRoutes_skeleton _ _ _ _ Hrun)). exact Hk.
Qed.

(** The scenario of the specification: the parent keeps [C], the child
    keeps [D]. *)
Example scenario_pruned :
  optimizeRoutes 2 scenario_routes ["A"; "B"] = Returned scenario_optimized /\
  imports_of scenario_optimized "root" = ["C"] /\
  imports_of scenario_optimized "routes/child" = ["D"].
Proof. split; [vm_compute; reflexivity|]. split; reflexivity. Qed.

(** Whatever run returned, a route keeps no url of its coverage list. *)
Lemma returned_covers fuel routes entryImports optimized k url :
  optimizeRoutes fuel routes entryImports = Returned optimized ->
  In k (JsObject.keys optimized) ->
  In url (imports_of optimized k) ->
  ~ In url entryImports /\
  forall parent,
    parent_of routes k = Some parent ->
    ~ In url (imports_of optimized parent) /\
    (parent_of routes parent = None -> ~ In url (imports_of routes parent)).
Proof.
  intros Hrun Hk Hurl.
  destruct (optimized_route _ _ _ _ _ Hrun Hk) as [route Hg].
  rewrite (imports_of_optimized _ _ _ _ _ _ Hrun Hg) in Hurl.
  apply filter_In in Hurl as [Hraw Hcov]. apply not_includes_In in Hcov.
  unfold coverage in Hcov. split.
  - destruct (parent_of routes k); [rewrite in_app_iff in Hcov|]; tauto.
  - intros parent Hp. rewrite Hp, in_app_iff in Hcov.
    split; [tauto|]. intros Hroot Hin.
    unfold imports_of in Hin.
    destruct (JsObject.get parent routes) as [rp|] eqn:Hgp; [|destruct Hin].
    apply Hcov. right.
    rewrite (imports_of_optimized _ _ _ _ _ _ Hrun Hgp).
    apply filter_In. split; [exact Hin|].
    apply not_includes_In. unfold coverage. rewrite Hroot. tauto.
Qed.

(** C1, as stated, fails: with three levels the child keeps the url [A]
    that its grandparent imports, since the child is filtered against the
    entry point and the pruned list of its parent only. *)
Lemma coverage_law_fails : ~ coverage_law three_levels [].
Proof.
  intros (optimized & Hpass & Hlaw).
  apply passes_to_run in Hpass. vm_compute in Hpass. injection Hpass as <-.
  destruct (Hlaw "routes/a/b" "A") as [_ Hanc].
  - vm_compute. auto.
  - vm_compute. auto.
  - apply (Hanc "root").
    + exists 1. reflexivity.
    + vm_compute. auto.
Qed.

(** C1, amended: on a forest without dangling edges the pass returns,
    and then a route keeps no url of the entry point and no url of the
    pruned list of its parent; when that parent has no parent itself, it
    keeps no url of the parent's raw list either. *)
Theorem pruned_covers_entry_and_parent routes entryImports :
  acyclic routes -> parents_present routes ->
  exists optimized,
    passes_to routes entryImports optimized /\
    forall k url,
      In k (JsObject.keys optimized) -> In url (imports_of optimized k) ->
      ~ In url entryImports /\
      forall parent,
        parent_of routes k = Some parent ->
        ~ In url (imports_of optimized parent) /\
        (parent_of routes parent = None -> ~ In url (imports_of routes parent)).
Proof.
  intros Hac Hpp.
  destruct (optimizeRoutes_passes routes entryImports Hac Hpp) as [optimized Hpass].
  exists optimized. split; [exact Hpass|].
  intros k url. eapply returned_covers. apply passes_to_run. exact Hpass.
Qed.

Lemma pruned_covers_entry_and_parent_witness :
  exists optimized,
    passes_to three_levels [] optimized /\
    forall k url,
      In k (JsObject.keys optimized) -> In url (imports_of optimized k) ->
      ~ In url [] /\
      forall parent,
        parent_of three_levels k = Some parent ->
        ~ In url (imports_of optimized parent) /\
        (parent_of three_levels parent = None ->
         ~ In url (imports_of three_levels parent)).
Proof.
  apply (pruned_covers_entry_and_parent three_levels []).
  - apply acyclicb_sound. vm_compute. reflexivity.
  - apply parents_presentb_sound. vm_compute. reflexivity.
Defined.

(** Whatever run returned, the raw list of a route is covered and its
    pruned list is drawn from it. *)
Lemma returned_no_loss fuel routes entryImports optimized k :
  optimizeRoutes fuel routes entryImports = Returned optimized ->
  In k (JsObject.keys routes) ->
  (forall url,
     In url (imports_of routes k) ->
     In url (imports_of optimized k) \/
     In url entryImports \/
     exists parent, parent_of routes k = Some parent /\
                    In url (imports_of optimized parent)) /\
  (forall url, In url (imports_of optimized k) -> In url (imports_of routes k)).
Proof.
  intros Hrun Hk. destruct (keys_get_Some _ _ Hk) as [route Hg].
  rewrite (imports_of_optimized _ _ _ _ _ _ Hrun Hg).
  unfold imports_of at 1 3. rewrite Hg. split.
  - intros url Hraw.
    destruct (includes (coverage routes optimized entryImports k) url) eqn:Hcov.
    + right. apply includes_In in Hcov. unfold coverage in Hcov.
      destruct (parent_of routes k) as [parent|]; [|tauto].
      apply in_app_iff in Hcov as [Hcov|Hcov]; [tauto|]. right. eauto.
    + left. apply filter_In. rewrite Hcov. auto.
  - intros url Hurl. apply filter_In in Hurl. tauto.
Qed.

(** C2, as stated, fails: the union holds the imports of the entry point
    whether or not the route imports them. *)
Lemma no_loss_law_fails : ~ no_loss_law lone_route ["A"].
Proof.
  intros (optimized & Hpass & Hlaw).
  destruct (Hlaw "root" "A") as [Hin _].
  - vm_compute. auto.
  - assert (In "A" (imports_of lone_route "root")) as Habs.
    { apply Hin. right. right. left. reflexivity. }
    vm_compute in Habs. destruct Habs as [Habs|[]]. discriminate.
Qed.

(** C2, amended: on a forest without dangling edges the pass returns,
    and nothing is lost: every url of the raw list of a route is in its
    pruned list, in the imports of the entry point or in the pruned list
    of its parent; and the pruned list holds urls of the raw list only. *)
Theorem raw_imports_covered routes entryImports :
  acyclic routes -> parents_present routes ->
  exists optimized,
    passes_to routes entryImports optimized /\
    forall k,
      In k (JsObject.keys routes) ->
      (forall url,
         In url (imports_of routes k) ->
         In url (imports_of optimized k) \/
         In url entryImports \/
         exists parent, parent_of routes k = Some parent /\
                        In url (imports_of optimized parent)) /\
      (forall url, In url (imports_of optimized k) -> In url (imports_of routes k)).
Proof.
  intros Hac Hpp.
  destruct (optimizeRoutes_passes routes entryImports Hac Hpp) as [optimized Hpass].
  exists optimized. split; [exact Hpass|].
  intros k. eapply returned_no_loss. apply passes_to_run. exact Hpass.
Qed.

Lemma raw_imports_covered_witness :
  exists optimized,
    passes_to scenario_routes ["A"; "B"] optimized /\
    forall k,
      In k (JsObject.keys scenario_routes) ->
      (forall url,
         In url (imports_of scenario_routes k) ->
         In url (imports_of optimized k) \/
         In url ["A"; "B"] \/
         exists parent, parent_of scenario_routes k = Some parent /\
                        In url (imports_of optimized parent)) /\
      (forall url, In url (imports_of optimized k) ->
                   In url (imports_of scenario_routes k)).
Proof.
  apply (raw_imports_covered scenario_routes ["A"; "B"]).
  - apply acyclicb_sound. vm_compute. reflexivity.
  - apply parents_presentb_sound. vm_compute. reflexivity.
Defined.

(** A second run over what a run returned, with the same fuel and entry
    imports, returns it unchanged. *)
Lemma returned_replays fuel routes entryImports optimized :
  optimizeRoutes fuel routes entryImports = Returned optimized ->
  optimizeRoutes fuel optimized entryImports = Returned optimized.
Proof.
  intros Hrun.
  pose proof (optimizeRoutes_skeleton _ _ _ _ Hrun) as Hs.
  unfold optimizeRoutes in *.
  rewrite (skeleton_same_keys _ _ Hs).
  destruct (optimizeEach fuel (JsObject.keys routes) routes entryImports ∅)
    as [[R1 final]| |] eqn:Hloop; simpl in Hrun; try discriminate.
  injection Hrun as ->.
  destruct (optimizeEach_inv _ _ _ _ _ _ _ _ (pass_inv_start routes entryImports) Hloop)
    as (Hfinal & _ & _).
  rewrite (replay_each routes entryImports optimized final Hfinal fuel _ _ _ _ _
             (pass_inv_start routes entryImports) Hs Hloop); auto.
Qed.

(** C3: on a forest without dangling edges the pass returns, and the
    pass over what it returned, with the same entry imports, returns the
    same routes: no [imports] field changes. *)
Theorem optimizeRoutes_idempotent routes entryImports :
  acyclic routes -> parents_present routes ->
  exists optimized,
    passes_to routes entryImports optimized /\
    passes_to optimized entryImports optimized.
Proof.
  intros Hac Hpp.
  destruct (optimizeRoutes_passes routes entryImports Hac Hpp) as [optimized Hpass].
  exists optimized. split; [exact Hpass|].
  intros fuel Hfuel. apply (returned_replays fuel routes).
  apply Hpass.
  rewrite <- (skeleton_same_keys _ _
                (optimizeRoutes_skeleton _ _ _ _ (passes_to_run _ _ _ Hpass))).
  exact Hfuel.
Qed.

Lemma optimizeRoutes_idempotent_witness :
  exists optimized,
    passes_to three_levels [] optimized /\
    passes_to optimized [] optimized.
Proof.
  apply (optimizeRoutes_idempotent three_levels []).
  - apply acyclicb_sound. vm_compute. reflexivity.
  - apply parents_presentb_sound. vm_compute. reflexivity.
Defined.

(** The second pass on the three levels, run. *)
Example three_levels_twice :
  optimizeRoutes 3 three_levels [] = Returned three_levels_optimized /\
  optimizeRoutes 3 three_levels_optimized [] = Returned three_levels_optimized.
Proof. split; vm_compute; reflexivity. Qed.

(** C5: on a forest without dangling edges the pass returns, and a route
    whose raw imports are all in its coverage list ends with no [imports]
    field; no route ends with an empty list in that field. *)
Theorem empty_imports_omitted routes entryImports :
  acyclic routes -> parents_present routes ->
  exists optimized,
    passes_to routes entryImports optimized /\
    forall k route route',
      JsObject.get k routes = Some route ->
      JsObject.get k optimized = Some route' ->
      (List.filter
         (fun url => negb (includes (coverage routes optimized entryImports k) url))
         (imports_or_empty route) = [] ->
       imports route' = None) /\
      imports route' <> Some [].
Proof.
  intros Hac Hpp.
  destruct (optimizeRoutes_passes routes entryImports Hac Hpp) as [optimized Hpass].
  exists optimized. split; [exact Hpass|].
  intros k route route' Hg Hg'.
  rewrite (optimizeRoutes_filtered _ _ _ _ _ _ (passes_to_run _ _ _ Hpass) Hg) in Hg'.
  injection Hg' as <-. simpl. split.
  - intros ->. reflexivity.
  - apply nonempty_or_undefined_not_empty.
Qed.

Lemma empty_imports_omitted_witness :
  exists optimized,
    passes_to [("root", sample_route "root" None ["A"; "B"])] ["A"; "B"] optimized /\
    forall k route route',
      JsObject.get k [("root", sample_route "root" None ["A"; "B"])] = Some route ->
      JsObject.get k optimized = Some route' ->
      (List.filter
         (fun url =>
            negb (includes
                    (coverage [("root", sample_route "root" None ["A"; "B"])]
                       optimized ["A"; "B"] k) url))
         (imports_or_empty route) = [] ->
       imports route' = None) /\
      imports route' <> Some [].
Proof.
  apply (empty_imports_omitted [("root", sample_route "root" None ["A"; "B"])] ["A"; "B"]).
  - apply acyclicb_sound. vm_compute. reflexivity.
  - apply parents_presentb_sound. vm_compute. reflexivity.
Defined.

(** A route that imports only what the entry point imports loses its
    [imports] field. *)
Example covered_route_omitted :
  optimizeRoutes 1 [("root", sample_route "root" None ["A"; "B"])] ["A"; "B"]
  = Returned [("root", set_imports None (sample_route "root" None ["A"; "B"]))].
Proof. vm_compute. reflexivity. Qed.

(** C8: on a forest without dangling edges the pass returns, and it
    removes without reordering: the pruned list of every route is a
    subsequence of its raw list. *)
Theorem pruned_imports_sublist routes entryImports :
  acyclic routes -> parents_present routes ->
  exists optimized,
    passes_to routes entryImports optimized /\
    forall k, sublist (imports_of optimized k) (imports_of routes k).
Proof.
  intros Hac Hpp.
  destruct (optimizeRoutes_passes routes entryImports Hac Hpp) as [optimized Hpass].
  exists optimized. split; [exact Hpass|].
  pose proof (passes_to_run _ _ _ Hpass) as Hrun.
  intros k. destruct (JsObject.get k routes) as [route|] eqn:Hg.
  - rewrite (imports_of_optimized _ _ _ _ _ _ Hrun Hg).
    unfold imports_of. rewrite Hg. apply filter_sublist.
  - unfold imports_of. rewrite Hg.
    pose proof (skeleton_get k optimized) as H1.
    rewrite (optimizeRoutes_skeleton _ _ _ _ Hrun), skeleton_get, Hg in H1.
    destruct (JsObject.get k optimized); [discriminate|]. constructor.
Qed.

Lemma pruned_imports_sublist_witness :
  exists optimized,
    passes_to three_levels [] optimized /\
    forall k, sublist (imports_of optimized k) (imports_of three_levels k).
Proof.
  apply (pruned_imports_sublist three_levels []).
  - apply acyclicb_sound. vm_compute. reflexivity.
  - apply parents_presentb_sound. vm_compute. reflexivity.
Defined.

(** C9: from a fresh cache the recursion of [optimizeRouteImports] is
    over within some fuel for every route id exactly when no parent chain
    revisits a route. On a forest every chain ends within as many links as
    there are routes, so the recursion is over whatever the cache holds;
    on a chain that revisits a route it runs out of any fuel, before any
    write to the cache. *)
Theorem optimizer_terminates_iff_acyclic routes parentImports :
  ((forall k, In k (JsObject.keys routes) ->
              terminates (fun fuel => optimizeRouteImports fuel k routes parentImports ∅))
   <-> acyclic routes) /\
  (acyclic routes ->
   forall k cache fuel,
     length (JsObject.keys routes) < fuel ->
     finished (optimizeRouteImports fuel k routes parentImports cache) = true) /\
  (forall k i j x,
     i < j -> follow routes i k = Some x -> follow routes j k = Some x ->
     forall fuel, optimizeRouteImports fuel k routes parentImports ∅ = OutOfFuel).
Proof.
  split; [split|split].
  - intros Hterm k i j x Hk Hij Hi Hj.
    destruct (Hterm k Hk) as [fuel Hfin].
    rewrite (diverges routes parentImports fuel k) in Hfin; [discriminate|].
    eapply revisit_forever; eauto.
  - intros Hac k _. destruct (chain_ends routes k Hac) as (n & _ & Hend).
    exists (S n). apply finishes_within with (n := n); [assumption|lia].
  - intros Hac k cache fuel Hfuel.
    destruct (chain_ends routes k Hac) as (n & Hn & Hend).
    apply finishes_within with (n := n); [assumption|lia].
  - intros k i j x Hij Hi Hj fuel. apply diverges.
    eapply revisit_forever; eauto.
Qed.

(** On the two routes that name each other as parent no fuel is
    enough. *)
Example two_cycle_diverges fuel parentImports :
  optimizeRouteImports fuel "x" two_cycle parentImports ∅ = OutOfFuel.
Proof.
  apply diverges. apply (revisit_forever two_cycle "x" 0 2 "x"); [lia| |]; reflexivity.
Qed.

(** C10: when every [parentId] that is set names a route of the map, no
    call of the pass reads a missing route: the pass does not throw. *)
Theorem parent_lookup_safe routes entryImports fuel e :
  parents_present routes ->
  optimizeRoutes fuel routes entryImports <> Thrown e.
Proof.
  intros Hpp. unfold optimizeRoutes.
  pose proof (optimizeEach_no_throw entryImports fuel (JsObject.keys routes) routes ∅)
    as Hsafe.
  destruct (optimizeEach fuel (JsObject.keys routes) routes entryImports ∅)
    as [[R1 c1]|e'|]; simpl; try discriminate.
  exfalso. eapply Hsafe; [apply parents_present_links; assumption| |reflexivity].
  intros y Hy. exact Hy.
Qed.

Lemma parent_lookup_safe_witness :
  parents_present scenario_routes /\
  optimizeRoutes 2 scenario_routes ["A"; "B"] <> Thrown TypeError.
Proof.
  assert (parents_present scenario_routes) as Hpp
    by (apply parents_presentb_sound; vm_compute; reflexivity).
  split; [exact Hpp|]. apply (parent_lookup_safe scenario_routes). exact Hpp.
Defined.

(** A parent that is not in the map: the lookup of the missing route
    throws. *)
Example dangling_parent_throws :
  optimizeRoutes 2 [("routes/child", sample_route "routes/child" (Some "root") ["A"])] []
  = Thrown TypeError.
Proof. vm_compute. reflexivity. Qed.

(** ** Strings of the builder *)

Example strip_route_module_tag_sample :
  strip_route_module_tag "browser-route-module:routes/index.tsx?browser"
  = "routes/index.tsx".
Proof. reflexivity. Qed.

Example win32_to_posix_sample :
  win32_to_posix (String "a" (String win32_sep (String "b" EmptyString))) = "a/b".
Proof. reflexivity. Qed.

Example toUpperCase_sample : toUpperCase "13acd7e9" = "13ACD7E9".
Proof. reflexivity. Qed.

(** ** The order of the sorted output keys *)

Lemma string_compare_le_trans a :
  forall b c,
    String.compare a b <> Gt -> String.compare b c <> Gt -> String.compare a c <> Gt.
Proof.
  induction a as [|x a IH]; intros [|y b] [|z c]; simpl; try congruence.
  unfold Ascii.compare.
  destruct (N.compare_spec (N_of_ascii x) (N_of_ascii y)) as [Hxy|Hxy|Hxy];
    destruct (N.compare_spec (N_of_ascii y) (N_of_ascii z)) as [Hyz|Hyz|Hyz];
    destruct (N.compare_spec (N_of_ascii x) (N_of_ascii z)) as [Hxz|Hxz|Hxz];
    try congruence; try lia.
  apply IH.
Qed.

Lemma string_leb_le a b : String.leb a b = true <-> String.compare a b <> Gt.
Proof. unfold String.leb. destruct (String.compare a b); split; congruence. Qed.

#[global] Instance string_le_trans : Transitive string_le.
Proof.
  intros a b c. unfold string_le. rewrite !string_leb_le.
  apply string_compare_le_trans.
Qed.

#[global] Instance string_le_antisym : AntiSymm (=) string_le.
Proof. intros a b. apply String.leb_antisym. Qed.

#[global] Instance string_le_total : Total string_le.
Proof. intros a b. apply String.leb_total. Qed.

(** Sorting forgets the order in which the keys were enumerated. *)
Lemma sorted_keys_permutation (l1 l2 : list string) :
  Permutation l1 l2 -> merge_sort string_le l1 = merge_sort string_le l2.
Proof.
  intros Hperm. apply (Sorted_unique string_le).
  - apply Sorted_merge_sort; apply _.
  - apply Sorted_merge_sort; apply _.
  - rewrite !merge_sort_Permutation. exact Hperm.
Qed.

(** ** The builder *)

Section builder_facts.
Context `{Externals}.

Lemma visitOutputs_ext config m1 m2 byFile :
  (forall k, JsObject.get k (Metafile.outputs m1) = JsObject.get k (Metafile.outputs m2)) ->
  forall sortedKeys state,
    visitOutputs config m1 byFile state sortedKeys
    = visitOutputs config m2 byFile state sortedKeys.
Proof.
  intros Hext. induction sortedKeys as [|key rest IH]; intros state; simpl; [reflexivity|].
  assert (visitOutput config m1 byFile state key = visitOutput config m2 byFile state key)
    as -> by (unfold visitOutput; rewrite Hext; reflexivity).
  destruct (visitOutput config m2 byFile state key); simpl; auto.
Qed.

End builder_facts.

Section builder_laws.
Context `{Externals}.

(** C4: the version is a function of the route tree, of the outputs of
    the bundler whatever the order they are enumerated in, of the
    stylesheet url and of the source exports. Two builds that differ in
    that order and in the hmr descriptor compute the same fingerprinted
    values and the same version; the version is the hash prefix of those
    values, in which neither [hmr] nor [url] occurs; and [write], which
    sets [url], leaves the version as it is. *)
Theorem version_deterministic fuel config m1 m2 cssBundleHref hmr1 hmr2 :
  NoDup (JsObject.keys (Metafile.outputs m1)) ->
  Permutation (Metafile.outputs m1) (Metafile.outputs m2) ->
  ((fun m => (Manifest.version m, fingerprinted m))
     <$> create fuel config m1 cssBundleHref hmr1
   = (fun m => (Manifest.version m, fingerprinted m))
     <$> create fuel config m2 cssBundleHref hmr2) /\
  (forall m,
     create fuel config m1 cssBundleHref hmr1 = Returned m ->
     Manifest.version m = versionOf (fingerprinted m) /\ Manifest.url m = None) /\
  (forall m fs, Manifest.version (fst (write config m fs)) = Manifest.version m).
Proof.
  intros Hnd Hperm. split; [|split].
  - unfold create, sortedOutputKeys.
    rewrite (sorted_keys_permutation _ (JsObject.keys (Metafile.outputs m2)))
      by (apply Permutation_map; exact Hperm).
    rewrite (visitOutputs_ext config m1 m2)
      by (intros k; apply get_permutation; assumption).
    destruct (visitOutputs config m2 (routesByFile config) (None, [])
                (merge_sort string_le (JsObject.keys (Metafile.outputs m2))))
      as [[entry routes]| |]; simpl; try reflexivity.
    destruct entry as [entry|]; simpl; try reflexivity.
    destruct (optimizeRoutes fuel routes (Entry.imports entry)); reflexivity.
  - intros m. unfold create.
    destruct (visitOutputs config m1 (routesByFile config) (None, [])
                (sortedOutputKeys m1)) as [[entry routes]| |]; simpl; try discriminate.
    destruct entry as [entry|]; simpl; try discriminate.
    destruct (optimizeRoutes fuel routes (Entry.imports entry)); simpl; try discriminate.
    intros [= <-]. split; reflexivity.
  - reflexivity.
Qed.

(** While no output is the client entry point the loop leaves [entry]
    undefined, unless it throws on a route bundle without a route. *)
Lemma visitOutputs_no_entry config metafile byFile :
  no_client_entry config metafile ->
  forall sortedKeys state,
    (forall k, In k sortedKeys -> In k (JsObject.keys (Metafile.outputs metafile))) ->
    fst state = None ->
    match visitOutputs config metafile byFile state sortedKeys with
    | Returned state' => fst state' = None
    | Thrown e => exists message, e = InvariantError message
    | OutOfFuel => False
    end.
Proof.
  intros Hno. induction sortedKeys as [|key rest IH]; intros state Hkeys Hstate; simpl;
    [assumption|].
  assert (match visitOutput config metafile byFile state key with
          | Returned state' => fst state' = None
          | Thrown e => exists message, e = InvariantError message
          | OutOfFuel => False
          end) as Hstep.
  { unfold visitOutput.
    destruct (keys_get_Some _ _ (Hkeys key (or_introl eq_refl))) as [output Hg].
    rewrite Hg.
    destruct (truthy (Metafile.entryPoint output)) as [entryPoint|] eqn:Hep;
      [|assumption].
    destruct (String.eqb (path_resolve entryPoint)
                (RemixConfig.entryClientFilePath config)) eqn:Hclient.
    { apply String.eqb_eq in Hclient. exfalso. eapply Hno; eauto. }
    destruct (String.prefix "browser-route-module:" entryPoint); [|assumption].
    destruct (byFile !! strip_route_module_tag entryPoint); simpl; eauto. }
  destruct (visitOutput config metafile byFile state key) as [state'| |]; simpl;
    [|assumption|assumption].
  apply IH; [|assumption]. intros k Hk. apply Hkeys. now right.
Qed.

(** C6: when no output is the client entry point, [create] throws an
    invariant error (the one of the missing entry point when the loop over
    the outputs came to its end), returns no manifest, and the build that
    writes what [create] returns leaves the disk as it was. *)
Theorem missing_entry_fatal fuel config metafile cssBundleHref hmr fs :
  no_client_entry config metafile ->
  exists message,
    create fuel config metafile cssBundleHref hmr = Thrown (InvariantError message) /\
    createAndWrite fuel config metafile cssBundleHref hmr fs
    = (Thrown (InvariantError message), fs) /\
    (forall state,
       visitOutputs config metafile (routesByFile config) (None, [])
         (sortedOutputKeys metafile) = Returned state ->
       message = "Missing output for entry point").
Proof.
  intros Hno.
  assert (forall k, In k (sortedOutputKeys metafile) ->
                    In k (JsObject.keys (Metafile.outputs metafile))) as Hkeys.
  { intros k Hk. unfold sortedOutputKeys in Hk.
    eapply Permutation_in; [apply (merge_sort_Permutation string_le)|exact Hk]. }
  pose proof (visitOutputs_no_entry config metafile (routesByFile config) Hno
                (sortedOutputKeys metafile) (None, []) Hkeys eq_refl) as Hloop.
  unfold createAndWrite, create.
  destruct (visitOutputs config metafile (routesByFile config) (None, [])
              (sortedOutputKeys metafile)) as [[entry routes]|e|].
  - simpl in Hloop. subst entry.
    exists "Missing output for entry point". simpl. auto.
  - destruct Hloop as [message ->].
    exists message. simpl. split; [reflexivity|]. split; [reflexivity|]. discriminate.
  - destruct Hloop.
Qed.

Lemma no_client_entryb_sound config metafile :
  no_client_entryb config metafile = true -> no_client_entry config metafile.
Proof.
  unfold no_client_entryb, no_client_entry. rewrite forallb_forall.
  intros Hall key output entryPoint Hg Hep Heq.
  specialize (Hall _ (get_In _ _ _ Hg)). simpl in Hall.
  rewrite Hep, Heq, String.eqb_refl in Hall. discriminate.
Qed.

End builder_laws.

(** ** The version as a file name *)

Lemma toUpperCase_length s : String.length (toUpperCase s) = String.length s.
Proof. induction s as [|c s IH]; simpl; congruence. Qed.

Lemma toUpperCase_substring s :
  forall n m, toUpperCase (String.substring n m s) = String.substring n m (toUpperCase s).
Proof.
  induction s as [|c s IH]; intros [|n] [|m]; simpl; try reflexivity; rewrite ?IH;
    reflexivity.
Qed.

Lemma substring_prefix_length s :
  forall n, n <= String.length s -> String.length (String.substring 0 n s) = n.
Proof.
  induction s as [|c s IH]; intros [|n] Hn; simpl in *; try reflexivity; try lia.
  rewrite IH; lia.
Qed.

Lemma string_forall_substring p s :
  forall n, string_forall p s = true -> string_forall p (String.substring 0 n s) = true.
Proof.
  induction s as [|c s IH]; intros [|n] Hs; simpl in *; try reflexivity.
  apply andb_prop in Hs as [-> Hs]. simpl. auto.
Qed.

Lemma upper_ascii_hex c :
  is_hex_digit c = true -> is_upper_hex_digit (upper_ascii c) = true.
Proof.
  destruct c as [[] [] [] [] [] [] [] []]; vm_compute; congruence.
Qed.

Lemma toUpperCase_hex s :
  string_forall is_hex_digit s = true ->
  string_forall is_upper_hex_digit (toUpperCase s) = true.
Proof.
  induction s as [|c s IH]; simpl; [reflexivity|].
  intros Hs. apply andb_prop in Hs as [Hc Hs].
  rewrite (upper_ascii_hex _ Hc), IH; auto.
Qed.

Lemma string_length_append a b :
  String.length (a +:+ b) = String.length a + String.length b.
Proof. induction a as [|c a IH]; simpl; [reflexivity|]. rewrite IH. reflexivity. Qed.

Lemma string_forall_append p a b :
  string_forall p (a +:+ b) = string_forall p a && string_forall p b.
Proof.
  induction a as [|c a IH]; simpl; [reflexivity|].
  rewrite IH. apply andb_assoc.
Qed.

Section writer_laws.
Context `{Externals}.

(** C7: for a manifest that [create] returned, [write] stores under
    [manifest-VERSION.js] in the assets build directory the one statement
    that assigns the serialized manifest to [window.__remixManifest],
    touches no other file, and sets [url] to the public path followed by
    that file name; VERSION is the version in upper case, the first eight
    code units of the hash of the fingerprinted values: eight upper-case
    hexadecimal digits when the hash is a hexadecimal digest. *)
Theorem write_output_format fuel config metafile cssBundleHref hmr m fs :
  (forall s, hex_digest (getHash s)) ->
  create fuel config metafile cssBundleHref hmr = Returned m ->
  let VERSION := toUpperCase (Manifest.version m) in
  let filename := "manifest-" +:+ VERSION +:+ ".js" in
  let file := path_join (RemixConfig.assetsBuildDirectory config) filename in
  let written := write config m fs in
  (VERSION =
     String.substring 0 8
       (toUpperCase (getHash (JSON_stringify_fingerprinted (fingerprinted m)))) /\
   String.length VERSION = 8 /\
   string_forall is_upper_hex_digit VERSION = true) /\
  files (snd written) !! file =
    Some ("window.__remixManifest=" +:+ JSON_stringify_manifest (fst written) +:+ ";") /\
  (forall other, other <> file -> files (snd written) !! other = files fs !! other) /\
  fst written = set_url (RemixConfig.publicPath config +:+ filename) m /\
  Manifest.url (fst written) = Some (RemixConfig.publicPath config +:+ filename).
Proof.
  intros Hhex Hcreate VERSION filename file written.
  assert (Manifest.version m = versionOf (fingerprinted m)) as Hversion.
  { unfold create in Hcreate.
    destruct (visitOutputs config metafile (routesByFile config) (None, [])
                (sortedOutputKeys metafile)) as [[entry routes]| |];
      simpl in Hcreate; try discriminate.
    destruct entry as [entry|]; simpl in Hcreate; try discriminate.
    destruct (optimizeRoutes fuel routes (Entry.imports entry)); simpl in Hcreate;
      try discriminate.
    injection Hcreate as <-. reflexivity. }
  destruct (Hhex (JSON_stringify_fingerprinted (fingerprinted m))) as [Hlen Hdigits].
  split; [|split; [|split; [|split]]].
  - subst VERSION. rewrite Hversion. unfold versionOf. split; [|split].
    + apply toUpperCase_substring.
    + rewrite toUpperCase_length. apply substring_prefix_length. exact Hlen.
    + apply toUpperCase_hex, string_forall_substring. exact Hdigits.
  - subst written. unfold write, writeFileSafe. simpl. apply lookup_insert_eq.
  - intros other Hother. subst written. unfold write, writeFileSafe. simpl.
    apply lookup_insert_ne. intros Heq. apply Hother. symmetry. exact Heq.
  - reflexivity.
  - reflexivity.
Qed.

End writer_laws.

(** ** The laws on the sample build *)

Lemma hex_digit_of_hex n : is_hex_digit (hex_digit_of n) = true.
Proof.
  unfold hex_digit_of.
  assert (n mod 16 < 16)%N as Hlt by (apply N.mod_lt; discriminate).
  destruct (n mod 16)%N as [|p]; [reflexivity|].
  destruct p as [[[[?|?|]|[?|?|]|]|[[?|?|]|[?|?|]|]|]
                |[[[?|?|]|[?|?|]|]|[[?|?|]|[?|?|]|]|]|];
    try reflexivity; lia.
Qed.

Lemma hex_of_N_digest width :
  forall n, String.length (hex_of_N width n) = width /\
            string_forall is_hex_digit (hex_of_N width n) = true.
Proof.
  induction width as [|w IH]; intros n; simpl; [auto|].
  destruct (IH (n / 16)%N) as [Hlen Hdigits].
  rewrite string_length_append, string_forall_append, Hlen, Hdigits. simpl.
  rewrite hex_digit_of_hex. split; [lia|reflexivity].
Qed.

Lemma sample_hash_hex s : hex_digest (@getHash sample_externals s).
Proof.
  unfold hex_digest.
  change (@getHash sample_externals s)
    with (hex_of_N 8 (checksum 7 s) +:+ hex_of_N 8 (checksum 11 s)).
  destruct (hex_of_N_digest 8 (checksum 7 s)) as [Hl1 Hd1].
  destruct (hex_of_N_digest 8 (checksum 11 s)) as [Hl2 Hd2].
  rewrite string_length_append, string_forall_append, Hl1, Hl2, Hd1, Hd2.
  split; [lia|reflexivity].
Qed.

Section sample_build.
#[local] Existing Instance sample_externals.

Lemma version_deterministic_witness :
  ((fun m => (Manifest.version m, fingerprinted m))
     <$> create 2 sample_config sample_metafile None (Some 7)
   = (fun m => (Manifest.version m, fingerprinted m))
     <$> create 2 sample_config sample_metafile_reversed None None) /\
  (forall m,
     create 2 sample_config sample_metafile None (Some 7) = Returned m ->
     Manifest.version m = versionOf (fingerprinted m) /\ Manifest.url m = None) /\
  (forall m fs,
     Manifest.version (fst (write sample_config m fs))
     = Manifest.version m).
Proof.
  apply (@version_deterministic sample_externals 2 sample_config
           sample_metafile sample_metafile_reversed None (Some 7) None).
  - vm_compute. repeat (constructor; [simpl; intuition discriminate|]). constructor.
  - apply Permutation_rev.
Defined.

Lemma missing_entry_fatal_witness :
  exists message,
    create 2 sample_config sample_metafile_no_entry None None
    = Thrown (InvariantError message) /\
    createAndWrite 2 sample_config sample_metafile_no_entry None None
      empty_disk
    = (Thrown (InvariantError message), empty_disk) /\
    (forall state,
       visitOutputs sample_config sample_metafile_no_entry
         (routesByFile sample_config) (None, [])
         (sortedOutputKeys sample_metafile_no_entry) = Returned state ->
       message = "Missing output for entry point").
Proof.
  apply (@missing_entry_fatal sample_externals 2 sample_config sample_metafile_no_entry
           None None empty_disk).
  apply no_client_entryb_sound. vm_compute. reflexivity.
Defined.

Lemma write_output_format_witness :
  exists m,
    create 2 sample_config sample_metafile None (Some 7) = Returned m /\
    let VERSION := toUpperCase (Manifest.version m) in
    let filename := "manifest-" +:+ VERSION +:+ ".js" in
    let file := path_join (RemixConfig.assetsBuildDirectory sample_config) filename in
    let written := write sample_config m empty_disk in
    (VERSION =
       String.substring 0 8
         (toUpperCase (getHash (JSON_stringify_fingerprinted (fingerprinted m)))) /\
     String.length VERSION = 8 /\
     string_forall is_upper_hex_digit VERSION = true) /\
    files (snd written) !! file =
      Some ("window.__remixManifest=" +:+ JSON_stringify_manifest (fst written) +:+ ";") /\
    (forall other, other <> file ->
                   files (snd written) !! other = files empty_disk !! other) /\
    fst written = set_url (RemixConfig.publicPath sample_config +:+ filename) m /\
    Manifest.url (fst written)
    = Some (RemixConfig.publicPath sample_config +:+ filename).
Proof.
  eexists. split; [vm_compute; reflexivity|].
  apply (@write_output_format sample_externals 2 sample_config sample_metafile None
           (Some 7) _ empty_disk sample_hash_hex).
  vm_compute. reflexivity.
Defined.

(** The sample build: the manifest is written as
    [manifest-13ACD7E9.js], and the route that exports a [loader] has
    [hasLoader] and none of the other capabilities. *)
Example sample_build_written :
  match createAndWrite 2 sample_config sample_metafile None None empty_disk with
  | (Returned m, disk) =>
      Manifest.url m = Some "/build/manifest-13ACD7E9.js" /\
      is_Some (files disk !! "public/build/manifest-13ACD7E9.js") /\
      (fun r => (hasLoader r, hasAction r, hasCatchBoundary r, hasErrorBoundary r))
        <$> JsObject.get "root" (Manifest.routes m)
      = Some (true, false, false, false)
  | _ => False
  end.
Proof.
  vm_compute. split; [reflexivity|]. split; [eexists; reflexivity|reflexivity].
Qed.

End sample_build.

(** * Further properties of the module *)

(** ** Urls *)





Section import_facts.
Context `{Externals}.

(** X2: [resolveImports] keeps the edges of kind import-statement and no
    other: a url is in the result exactly when it is the resolved path of
    such an edge, edges keep their order (the result of a concatenation is
    the concatenation of the results), and a list of edges of other kinds
    gives no url. *)
Theorem resolveImports_static config :
  (forall imports url,
     In url (resolveImports config imports) <->
     exists im, In im imports /\ Metafile.kind im = "import-statement" /\
                url = resolveUrl config (Metafile.path im)) /\
  (forall imports1 imports2,
     resolveImports config (imports1 ++ imports2)
     = resolveImports config imports1 ++ resolveImports config imports2) /\
  (forall imports,
     (forall im, In im imports -> Metafile.kind im <> "import-statement") ->
     resolveImports config imports = []).
Proof.
  unfold resolveImports. split; [|split].
  - intros imports url. rewrite in_map_iff. split.
    + intros (im & Hurl & Him). apply filter_In in Him as [Him Hkind].
      apply String.eqb_eq in Hkind. eauto.
    + intros (im & Him & Hkind & ->). exists im. split; [reflexivity|].
      apply filter_In. split; [assumption|]. now apply String.eqb_eq.
  - intros l1 l2. rewrite List.filter_app, List.map_app. reflexivity.
  - intros imports Hnone. induction imports as [|im imports IH]; [reflexivity|].
    simpl. destruct (String.eqb (Metafile.kind im) "import-statement") eqn:Hk.
    + apply String.eqb_eq in Hk. exfalso. apply (Hnone im); [now left|assumption].
    + apply IH. intros im' Him'. apply Hnone. now right.
Qed.

End import_facts.

(** ** The tag of a route module *)

Lemma prefix_append p s : String.prefix p (p +:+ s) = true.
Proof.
  induction p as [|c p IH]; simpl; [now destruct s|].
  destruct (ascii_dec c c); [exact IH|congruence].
Qed.

Lemma substring_whole s : String.substring 0 (String.length s) s = s.
Proof. induction s as [|c s IH]; simpl; [reflexivity|]. now rewrite IH. Qed.

Lemma substring_skip_append p s :
  String.substring (String.length p) (String.length s) (p +:+ s) = s.
Proof.
  induction p as [|c p IH]; [apply substring_whole|exact IH].
Qed.

Lemma substring_take_append s q :
  String.substring 0 (String.length s) (s +:+ q) = s.
Proof.
  induction s as [|c s IH]; simpl; [now destruct q|]. now rewrite IH.
Qed.

Lemma endsWith_append s q : endsWith (s +:+ q) q = true.
Proof.
  unfold endsWith. rewrite string_length_append.
  replace (String.length s + String.length q - String.length q)
    with (String.length s) by lia.
  rewrite substring_skip_append, String.eqb_refl. simpl.
  apply Nat.leb_le. lia.
Qed.

(** X4: removing the tag undoes the tagging: for every file, the entry
    point [browser-route-module:file?browser] starts with the tag the loop
    tests for and is stripped back to [file], also when the file itself
    starts with the tag or ends with the query (each is removed once). *)
Theorem strip_route_module_tag_roundtrip file :
  String.prefix "browser-route-module:"
    ("browser-route-module:" +:+ file +:+ "?browser") = true /\
  strip_route_module_tag ("browser-route-module:" +:+ file +:+ "?browser") = file.
Proof.
  split; [apply prefix_append|].
  unfold strip_route_module_tag. rewrite prefix_append.
  rewrite string_length_append.
  replace (String.length "browser-route-module:" + String.length (file +:+ "?browser")
           - String.length "browser-route-module:")
    with (String.length (file +:+ "?browser")) by lia.
  rewrite substring_skip_append, endsWith_append, string_length_append.
  replace (String.length file + String.length "?browser" - String.length "?browser")
    with (String.length file) by lia.
  apply substring_take_append.
Qed.

(** ** The routes of a file *)

Lemma fold_left_invariant {A B : Type} (f : A -> B -> A) (P : A -> Prop) l :
  forall a, P a -> (forall a b, In b l -> P a -> P (f a b)) -> P (List.fold_left f l a).
Proof.
  induction l as [|b l IH]; intros a Ha Hstep; simpl; [assumption|].
  apply IH.
  - apply Hstep; [now left|assumption].
  - intros a' b' Hb'. apply Hstep. now right.
Qed.

Lemma fold_left_reaches {A B : Type} (f : A -> B -> A) (Q : A -> Prop) l b :
  In b l -> (forall a, Q (f a b)) -> (forall a b', Q a -> Q (f a b')) ->
  forall a, Q (List.fold_left f l a).
Proof.
  intros Hb Hadd Hkeep. induction l as [|b' l IH]; intros a; [destruct Hb|].
  simpl. destruct Hb as [->|Hb]; [|now apply IH].
  apply fold_left_invariant; [apply Hadd|]. intros a' b'' _. apply Hkeep.
Qed.

Lemma routesByFile_sound_complete config :
  (forall key route,
     JsObject.get key (RemixConfig.routes config) = Some route ->
     exists group,
       routesByFile config !! Route.file route = Some group /\ In route group) /\
  (forall file group,
     routesByFile config !! file = Some group ->
     group <> [] /\
     forall route,
       In route group ->
       Route.file route = file /\
       exists key, JsObject.get key (RemixConfig.routes config) = Some route).
Proof.
  unfold routesByFile. split.
  - intros key route Hg.
    apply (fold_left_reaches _
             (fun map : gmap string (list Route.t) =>
                exists group, map !! Route.file route = Some group /\ In route group)
             _ key).
    + eapply get_Some_keys; eauto.
    + intros map. rewrite Hg. rewrite lookup_insert_eq. eexists. split; [reflexivity|].
      destruct (map !! Route.file route); [apply in_or_app; right|]; now left.
    + intros map key' (group & Hgroup & Hin).
      destruct (JsObject.get key' (RemixConfig.routes config)) as [route'|]; [|eauto].
      destruct (decide (Route.file route' = Route.file route)) as [Heq|Hne].
      * rewrite Heq, lookup_insert_eq, Hgroup. eexists. split; [reflexivity|].
        apply in_or_app. now left.
      * rewrite lookup_insert_ne by assumption. eauto.
  - apply (fold_left_invariant _
             (fun map : gmap string (list Route.t) =>
                forall file group,
                  map !! file = Some group ->
                  group <> [] /\
                  forall route,
                    In route group ->
                    Route.file route = file /\
                    exists key,
                      JsObject.get key (RemixConfig.routes config) = Some route)).
    + intros file group Hgroup. rewrite lookup_empty in Hgroup. discriminate.
    + intros map key _ Hmap file group.
      destruct (JsObject.get key (RemixConfig.routes config)) as [route'|] eqn:Hg;
        [|apply Hmap].
      destruct (decide (Route.file route' = file)) as [<-|Hne].
      * rewrite lookup_insert_eq. intros [= <-].
        destruct (map !! Route.file route') as [old|] eqn:Hold.
        -- destruct (Hmap _ _ Hold) as [_ Hmembers]. split; [now destruct old|].
           intros route Hin. apply in_app_or in Hin as [Hin|[<-|[]]]; eauto.
        -- split; [discriminate|]. intros route [<-|[]]. eauto.
      * rewrite lookup_insert_ne by assumption. apply Hmap.
Qed.

(** X3: [routesByFile] groups the routes of the configuration by source
    file, soundly and completely: every route of [config.routes] is in
    the group of its file, every member of a group is a route of
    [config.routes] with that file, and no group is empty. *)
Theorem routesByFile_groups config :
  (forall key route,
     JsObject.get key (RemixConfig.routes config) = Some route ->
     exists group,
       routesByFile config !! Route.file route = Some group /\ In route group) /\
  (forall file group,
     routesByFile config !! file = Some group ->
     group <> [] /\
     forall route,
       In route group ->
       Route.file route = file /\
       exists key, JsObject.get key (RemixConfig.routes config) = Some route).
Proof. exact (routesByFile_sound_complete config). Qed.

(** ** What the loop over the outputs builds *)

Section set_facts.
Context {V : Type}.
Implicit Types (o : list (string * V)) (k : string).

Lemma get_set_eq k (v : V) o : JsObject.get k (JsObject.set k v o) = Some v.
Proof.
  induction o as [|[k' v'] o IH]; simpl; [now rewrite String.eqb_refl|].
  destruct (String.eqb k k') eqn:Hk; simpl; rewrite Hk; auto.
Qed.

Lemma get_set_ne k k' (v : V) o :
  k <> k' -> JsObject.get k' (JsObject.set k v o) = JsObject.get k' o.
Proof.
  intros Hne.
  assert (String.eqb k' k = false) as Hk' by (apply String.eqb_neq; congruence).
  induction o as [|[k0 v0] o IH]; simpl; [now rewrite Hk'|].
  destruct (String.eqb k k0) eqn:Hk; simpl.
  - apply String.eqb_eq in Hk. subst k0. now rewrite Hk'.
  - destruct (String.eqb k' k0); auto.
Qed.

End set_facts.

Section loop_facts.
Context `{Externals}.
Variable config : RemixConfig.t.
Variable metafile : Metafile.t.

Lemma visitOutput_builds state key state' :
  visitOutput config metafile (routesByFile config) state key = Returned state' ->
  ((forall entry, fst state = Some entry -> entry_from config metafile entry) /\
   (forall k route, JsObject.get k (snd state) = Some route ->
                    route_from config metafile k route)) ->
  (forall entry, fst state' = Some entry -> entry_from config metafile entry) /\
  (forall k route, JsObject.get k (snd state') = Some route ->
                   route_from config metafile k route).
Proof.
  unfold visitOutput. intros Hrun [Hentry Hroutes].
  destruct (JsObject.get key (Metafile.outputs metafile)) as [output|] eqn:Hg;
    [|discriminate].
  destruct (truthy (Metafile.entryPoint output)) as [entryPoint|] eqn:Hep.
  2: { injection Hrun as <-. auto. }
  destruct (String.eqb (path_resolve entryPoint)
              (RemixConfig.entryClientFilePath config)) eqn:Hclient.
  { injection Hrun as <-. simpl. split; [|assumption].
    intros entry [= <-]. apply String.eqb_eq in Hclient.
    exists key, output, entryPoint. auto. }
  apply String.eqb_neq in Hclient.
  destruct (String.prefix "browser-route-module:" entryPoint) eqn:Htag.
  2: { injection Hrun as <-. auto. }
  destruct (routesByFile config !! strip_route_module_tag entryPoint)
    as [group|] eqn:Hgroup; simpl in Hrun; [|discriminate].
  injection Hrun as <-. simpl. split; [assumption|].
  destruct (routesByFile_sound_complete config) as [_ Hsound].
  destruct (Hsound _ _ Hgroup) as [_ Hmembers].
  apply (fold_left_invariant _
           (fun routes : Routes =>
              forall k route, JsObject.get k routes = Some route ->
                              route_from config metafile k route)); [assumption|].
  intros routes configRoute Hin Hinv k route.
  destruct (decide (Route.id configRoute = k)) as [<-|Hne].
  - rewrite get_set_eq. intros [= <-].
    destruct (Hmembers _ Hin) as [Hfile [configKey HconfigKey]].
    exists key, output, entryPoint, configKey, configRoute. auto 10.
  - rewrite get_set_ne by assumption. apply Hinv.
Qed.

Lemma visitOutputs_builds sortedKeys :
  forall state state',
    visitOutputs config metafile (routesByFile config) state sortedKeys
    = Returned state' ->
    ((forall entry, fst state = Some entry -> entry_from config metafile entry) /\
     (forall k route, JsObject.get k (snd state) = Some route ->
                      route_from config metafile k route)) ->
    (forall entry, fst state' = Some entry -> entry_from config metafile entry) /\
    (forall k route, JsObject.get k (snd state') = Some route ->
                     route_from config metafile k route).
Proof.
  induction sortedKeys as [|key rest IH]; intros state state' Hrun Hinv; simpl in Hrun.
  { injection Hrun as <-. assumption. }
  destruct (visitOutput config metafile (routesByFile config) state key)
    as [state1| |] eqn:Hstep; simpl in Hrun; try discriminate.
  eapply IH; [exact Hrun|]. eapply visitOutput_builds; eauto.
Qed.

(** What [create] went through when it returned. *)
Lemma create_returned fuel cssBundleHref hmr m :
  create fuel config metafile cssBundleHref hmr = Returned m ->
  exists routes,
    visitOutputs config metafile (routesByFile config) (None, [])
      (sortedOutputKeys metafile) = Returned (Some (Manifest.entry m), routes) /\
    optimizeRoutes fuel routes (Entry.imports (Manifest.entry m))
    = Returned (Manifest.routes m).
Proof.
  unfold create. intros Hcreate.
  destruct (visitOutputs config metafile (routesByFile config) (None, [])
              (sortedOutputKeys metafile)) as [[entry routes]| |];
    simpl in Hcreate; try discriminate.
  destruct entry as [entry|]; simpl in Hcreate; try discriminate.
  destruct (optimizeRoutes fuel routes (Entry.imports entry)) as [optimized| |] eqn:Hopt;
    simpl in Hcreate; try discriminate.
  injection Hcreate as <-. simpl. eauto.
Qed.

Lemma create_built fuel cssBundleHref hmr m :
  create fuel config metafile cssBundleHref hmr = Returned m ->
  exists routes,
    optimizeRoutes fuel routes (Entry.imports (Manifest.entry m))
    = Returned (Manifest.routes m) /\
    entry_from config metafile (Manifest.entry m) /\
    (forall k route, JsObject.get k routes = Some route ->
                     route_from config metafile k route).
Proof.
  intros Hcreate. destruct (create_returned _ _ _ _ Hcreate) as (routes & Hloop & Hopt).
  exists routes. split; [exact Hopt|].
  destruct (visitOutputs_builds _ _ _ Hloop) as [Hentry Hroutes].
  - split; [discriminate|]. intros k route Hg. discriminate.
  - split; [|assumption]. apply Hentry. reflexivity.
Qed.

(** X5: the entry of a manifest that [create] returned is the bundle of
    the client entry point: some output has an entry point that resolves
    to [config.entryClientFilePath], and the entry holds the url of that
    output and the urls of its import-statement edges, none of which the
    optimizer touches. *)
Theorem create_entry_is_client_bundle fuel cssBundleHref hmr m :
  create fuel config metafile cssBundleHref hmr = Returned m ->
  exists key output entryPoint,
    JsObject.get key (Metafile.outputs metafile) = Some output /\
    truthy (Metafile.entryPoint output) = Some entryPoint /\
    path_resolve entryPoint = RemixConfig.entryClientFilePath config /\
    Entry.module (Manifest.entry m) = resolveUrl config key /\
    Entry.imports (Manifest.entry m) = resolveImports config (Metafile.imports output).
Proof.
  intros Hcreate. destruct (create_built _ _ _ _ Hcreate) as (routes & _ & Hentry & _).
  destruct Hentry as (key & output & entryPoint & Hg & Hep & Hclient & ->).
  exists key, output, entryPoint. auto.
Qed.

(** X6: every route of a manifest that [create] returned is a route of
    the configuration, stored under its id and built from the output
    whose entry point is the tagged source file of that route: apart from
    [imports] it is the object literal of that route and output (id,
    parent, path, flags of the source exports, url of the output), and
    its [imports] are a subsequence of the resolved static imports of
    the output. *)
Theorem create_routes_from_config fuel cssBundleHref hmr m k route :
  create fuel config metafile cssBundleHref hmr = Returned m ->
  JsObject.get k (Manifest.routes m) = Some route ->
  exists key output entryPoint configKey configRoute,
    JsObject.get key (Metafile.outputs metafile) = Some output /\
    truthy (Metafile.entryPoint output) = Some entryPoint /\
    String.prefix "browser-route-module:" entryPoint = true /\
    JsObject.get configKey (RemixConfig.routes config) = Some configRoute /\
    Route.file configRoute = strip_route_module_tag entryPoint /\
    Route.id configRoute = k /\
    id route = k /\
    set_imports None route
    = set_imports None (manifestRoute config key output configRoute) /\
    sublist (imports_or_empty route)
            (resolveImports config (Metafile.imports output)).
Proof.
  intros Hcreate Hg.
  destruct (create_built _ _ _ _ Hcreate) as (routes & Hopt & _ & Hroutes).
  destruct (optimized_route _ _ _ _ k Hopt (get_Some_keys _ _ _ Hg)) as [raw Hraw].
  rewrite (optimizeRoutes_filtered _ _ _ _ _ _ Hopt Hraw) in Hg. injection Hg as <-.
  destruct (Hroutes _ _ Hraw)
    as (key & output & entryPoint & configKey & configRoute
        & Hout & Hep & _ & Htag & Hconfig & Hfile & Hid & ->).
  exists key, output, entryPoint, configKey, configRoute.
  split; [exact Hout|]. split; [exact Hep|]. split; [exact Htag|].
  split; [exact Hconfig|]. split; [exact Hfile|]. split; [exact Hid|].
  split; [exact Hid|]. split; [reflexivity|].
  rewrite imports_or_empty_set. apply filter_sublist.
Qed.

End loop_facts.

(** ** Route modules without a route, and outputs that do not count *)

Lemma sortedOutputKeys_keys metafile k :
  In k (sortedOutputKeys metafile) <-> In k (JsObject.keys (Metafile.outputs metafile)).
Proof.
  unfold sortedOutputKeys. split; apply Permutation_in;
    [|symmetry]; apply (merge_sort_Permutation string_le).
Qed.

Section fatal_facts.
Context `{Externals}.
Variable config : RemixConfig.t.
Variable metafile : Metafile.t.

Lemma visitOutput_outcome state key :
  In key (JsObject.keys (Metafile.outputs metafile)) ->
  match visitOutput config metafile (routesByFile config) state key with
  | Returned _ => True
  | Thrown e =>
      exists entryPoint,
        routesByFile config !! strip_route_module_tag entryPoint = None /\
        e = InvariantError ("Cannot get route(s) for entry point " +:+ entryPoint)
  | OutOfFuel => False
  end.
Proof.
  intros Hkey. unfold visitOutput.
  destruct (keys_get_Some _ _ Hkey) as [output ->].
  destruct (truthy (Metafile.entryPoint output)) as [entryPoint|]; [|exact I].
  destruct (String.eqb (path_resolve entryPoint)
              (RemixConfig.entryClientFilePath config)); [exact I|].
  destruct (String.prefix "browser-route-module:" entryPoint); [|exact I].
  destruct (routesByFile config !! strip_route_module_tag entryPoint) eqn:Hgroup;
    simpl; eauto.
Qed.

Lemma visitOutputs_unrouted key output entryPoint :
  JsObject.get key (Metafile.outputs metafile) = Some output ->
  truthy (Metafile.entryPoint output) = Some entryPoint ->
  path_resolve entryPoint <> RemixConfig.entryClientFilePath config ->
  String.prefix "browser-route-module:" entryPoint = true ->
  routesByFile config !! strip_route_module_tag entryPoint = None ->
  forall sortedKeys state,
    (forall k, In k sortedKeys -> In k (JsObject.keys (Metafile.outputs metafile))) ->
    In key sortedKeys ->
    exists entryPoint',
      routesByFile config !! strip_route_module_tag entryPoint' = None /\
      visitOutputs config metafile (routesByFile config) state sortedKeys
      = Thrown (InvariantError ("Cannot get route(s) for entry point " +:+ entryPoint')).
Proof.
  intros Hg Hep Hclient Htag Hgroup.
  induction sortedKeys as [|k rest IH]; intros state Hkeys Hin; [destruct Hin|].
  simpl.
  pose proof (visitOutput_outcome state k (Hkeys k (or_introl eq_refl))) as Hout.
  destruct (visitOutput config metafile (routesByFile config) state k)
    as [state'|e|] eqn:Hstep; simpl.
  - destruct Hin as [->|Hin].
    + unfold visitOutput in Hstep. rewrite Hg, Hep, Htag, Hgroup in Hstep.
      apply String.eqb_neq in Hclient. rewrite Hclient in Hstep. discriminate.
    + apply IH; [|assumption]. intros k' Hk'. apply Hkeys. now right.
  - destruct Hout as (entryPoint' & Hnone & ->). eauto.
  - destruct Hout.
Qed.

(** X8: a tagged route module whose source file backs no route of the
    configuration is fatal: when some output has such an entry point,
    [create] returns no manifest at any fuel but throws the invariant
    error that names an entry point of that kind (the first in the order
    of the sorted keys). *)
Theorem unrouted_module_fatal fuel cssBundleHref hmr key output entryPoint :
  JsObject.get key (Metafile.outputs metafile) = Some output ->
  truthy (Metafile.entryPoint output) = Some entryPoint ->
  path_resolve entryPoint <> RemixConfig.entryClientFilePath config ->
  String.prefix "browser-route-module:" entryPoint = true ->
  routesByFile config !! strip_route_module_tag entryPoint = None ->
  exists entryPoint',
    routesByFile config !! strip_route_module_tag entryPoint' = None /\
    create fuel config metafile cssBundleHref hmr
    = Thrown (InvariantError ("Cannot get route(s) for entry point " +:+ entryPoint')).
Proof.
  intros Hg Hep Hclient Htag Hgroup.
  destruct (visitOutputs_unrouted key output entryPoint Hg Hep Hclient Htag Hgroup
              (sortedOutputKeys metafile) (None, []))
    as (entryPoint' & Hnone & Hloop).
  - intros k. apply sortedOutputKeys_keys.
  - apply sortedOutputKeys_keys. eapply get_Some_keys; eauto.
  - exists entryPoint'. split; [assumption|]. unfold create. rewrite Hloop. reflexivity.
Qed.

End fatal_facts.

Lemma Permutation_filter_bool {A : Type} (f : A -> bool) (l l' : list A) :
  Permutation l l' -> Permutation (List.filter f l) (List.filter f l').
Proof.
  induction 1 as [|x l l' _ IH|x y l|l l' l'' _ IH1 _ IH2]; simpl.
  - constructor.
  - destruct (f x); [constructor|]; assumption.
  - destruct (f x), (f y); try reflexivity. constructor.
  - etransitivity; eassumption.
Qed.

Lemma StronglySorted_filter_bool {A : Type} (R : A -> A -> Prop) (f : A -> bool) l :
  StronglySorted R l -> StronglySorted R (List.filter f l).
Proof.
  induction 1 as [|x l Hsorted IH Hall]; simpl; [constructor|].
  destruct (f x); [|assumption]. constructor; [assumption|].
  rewrite List.Forall_forall in *. intros y Hy. apply Hall.
  apply filter_In in Hy. tauto.
Qed.

(** Sorting and filtering commute. *)
Lemma merge_sort_filter (f : string -> bool) (l : list string) :
  merge_sort string_le (List.filter f l) = List.filter f (merge_sort string_le l).
Proof.
  apply (StronglySorted_unique string_le).
  - apply StronglySorted_merge_sort; apply _.
  - apply StronglySorted_filter_bool, StronglySorted_merge_sort; apply _.
  - rewrite (merge_sort_Permutation string_le).
    apply Permutation_filter_bool. symmetry.
    apply (merge_sort_Permutation string_le).
Qed.

Section filter_facts.
Context {V : Type}.
Implicit Types (o : list (string * V)) (k : string).

Lemma get_filter (p : V -> bool) k o :
  NoDup (JsObject.keys o) ->
  JsObject.get k (List.filter (fun kv => p (snd kv)) o)
  = match JsObject.get k o with
    | Some v => if p v then Some v else None
    | None => None
    end.
Proof.
  unfold JsObject.keys. induction o as [|[k' v] o IH]; simpl; intros Hnd;
    [reflexivity|].
  inversion Hnd as [|? ? Hfresh Hnd']; subst.
  destruct (String.eqb k k') eqn:Hk.
  - apply String.eqb_eq in Hk. subst k'.
    destruct (p v); simpl; [now rewrite String.eqb_refl|].
    rewrite IH by assumption.
    destruct (JsObject.get k o) as [v'|] eqn:Hg; [|reflexivity].
    exfalso. apply Hfresh. apply (get_Some_keys _ _ _ Hg).
  - destruct (p v); simpl; [rewrite Hk|]; auto.
Qed.

Lemma keys_filter (p : V -> bool) o :
  NoDup (JsObject.keys o) ->
  JsObject.keys (List.filter (fun kv => p (snd kv)) o)
  = List.filter
      (fun k => match JsObject.get k o with Some v => p v | None => false end)
      (JsObject.keys o).
Proof.
  intros Hnd.
  assert (forall sub, incl sub o ->
            List.map fst (List.filter (fun kv => p (snd kv)) sub)
            = List.filter
                (fun k => match JsObject.get k o with Some v => p v | None => false end)
                (List.map fst sub)) as Hsub.
  { induction sub as [|[k v] sub IH]; intros Hincl; simpl; [reflexivity|].
    rewrite (In_get k v o Hnd) by (apply Hincl; now left).
    destruct (p v); simpl; rewrite IH; auto; intros y Hy; apply Hincl; now right. }
  apply Hsub. intros y Hy. exact Hy.
Qed.

End filter_facts.

Section passed_over_facts.
Context `{Externals}.
Variable config : RemixConfig.t.
Variable metafile : Metafile.t.
Hypothesis Hnd : NoDup (JsObject.keys (Metafile.outputs metafile)).

Lemma visitOutputs_passed_over sortedKeys :
  forall state,
    (forall k, In k sortedKeys -> In k (JsObject.keys (Metafile.outputs metafile))) ->
    visitOutputs config metafile (routesByFile config) state sortedKeys
    = visitOutputs config (without_passed_over config metafile) (routesByFile config)
        state
        (List.filter
           (fun k =>
              match JsObject.get k (Metafile.outputs metafile) with
              | Some output => negb (passed_over config output)
              | None => false
              end)
           sortedKeys).
Proof.
  induction sortedKeys as [|key rest IH]; intros state Hkeys; [reflexivity|].
  simpl.
  destruct (keys_get_Some _ _ (Hkeys key (or_introl eq_refl))) as [output Hg].
  rewrite Hg.
  assert (forall k, In k rest -> In k (JsObject.keys (Metafile.outputs metafile)))
    as Hrest by (intros k Hk; apply Hkeys; now right).
  destruct (passed_over config output) eqn:Hpassed; simpl.
  - assert (visitOutput config metafile (routesByFile config) state key = Returned state)
      as ->.
    { unfold visitOutput. rewrite Hg. unfold passed_over in Hpassed.
      destruct (truthy (Metafile.entryPoint output)) as [entryPoint|]; [|reflexivity].
      apply andb_prop in Hpassed as [Hclient Htag].
      apply negb_true_iff in Hclient, Htag. now rewrite Hclient, Htag. }
    simpl. apply IH. exact Hrest.
  - assert (visitOutput config metafile (routesByFile config) state key
            = visitOutput config (without_passed_over config metafile)
                (routesByFile config) state key) as ->.
    { unfold visitOutput, without_passed_over. simpl.
      rewrite (get_filter (fun output => negb (passed_over config output))) by exact Hnd.
      rewrite Hg, Hpassed. reflexivity. }
    destruct (visitOutput config (without_passed_over config metafile)
                (routesByFile config) state key); simpl; auto.
Qed.

(** X7: outputs that are no entry point, and entry points that are
    neither the client entry nor a tagged route module (such as the
    bundles that dynamic imports give rise to), never reach the manifest:
    [create] on the metafile without them gives what it gives on the whole
    metafile. *)
Theorem create_passes_over fuel cssBundleHref hmr :
  create fuel config metafile cssBundleHref hmr
  = create fuel config (without_passed_over config metafile) cssBundleHref hmr.
Proof.
  unfold create.
  rewrite (visitOutputs_passed_over (sortedOutputKeys metafile))
    by (intros k; apply sortedOutputKeys_keys).
  unfold sortedOutputKeys at 2. unfold without_passed_over at 2. simpl.
  rewrite (keys_filter (fun output => negb (passed_over config output))) by exact Hnd.
  rewrite merge_sort_filter. reflexivity.
Qed.

End passed_over_facts.

(** ** When the pass returns, and what it leaves alone *)

Lemma Pruned_ends raw entryImports k l :
  Pruned raw entryImports k l -> exists n, follow raw (S n) k = None.
Proof.
  induction 1 as [k route Hg Hp|k route parent lp Hg Hp _ [n IH]].
  - exists 0. simpl. unfold parent_of. now rewrite Hg, Hp.
  - exists (S n).
    change (follow raw (S (S n)) k) with
      (match parent_of raw k with
       | Some p => follow raw (S n) p | None => None end).
    unfold parent_of at 1. now rewrite Hg, Hp.
Qed.

Lemma returned_forest fuel routes entryImports optimized :
  optimizeRoutes fuel routes entryImports = Returned optimized ->
  acyclic routes /\ links_present routes.
Proof.
  intros Hrun.
  destruct (optimizeRoutes_final _ _ _ _ Hrun) as (cache & Hinv & Hall).
  split.
  - intros k i j x Hk Hij Hi Hj.
    destruct (Hall k Hk) as [l Hl].
    destruct (Pruned_ends _ _ _ _ (inv_cached _ _ _ _ Hinv k l Hl)) as [n Hend].
    destruct (revisit_forever routes k i j x Hij Hi Hj (S n)) as [y Hy].
    congruence.
  - intros k parent Hp.
    destruct (Hall k (parent_of_key _ _ _ Hp)) as [l Hl].
    pose proof (inv_cached _ _ _ _ Hinv k l Hl) as Hpruned.
    unfold parent_of in Hp.
    inversion Hpruned as [k' route Hg Hpar|k' route parent' lp Hg Hpar Hparent]; subst;
      rewrite Hg in Hp; [congruence|].
    replace parent' with parent in * by congruence.
    destruct (Pruned_route _ _ _ _ Hparent) as [rp Hrp].
    eapply get_Some_keys; eauto.
Qed.

Lemma forest_returns routes entryImports :
  acyclic routes -> links_present routes ->
  exists optimized, passes_to routes entryImports optimized.
Proof.
  intros Hac Hlinks.
  pose proof (optimizeEach_finishes entryImports (S (length (JsObject.keys routes)))
                (JsObject.keys routes) routes ∅) as Hfin.
  pose proof (optimizeEach_no_throw entryImports (S (length (JsObject.keys routes)))
                (JsObject.keys routes) routes ∅) as Hsafe.
  assert (exists optimized,
            optimizeRoutes (S (length (JsObject.keys routes))) routes entryImports
            = Returned optimized) as [optimized Hrun].
  { unfold optimizeRoutes.
    destruct (optimizeEach (S (length (JsObject.keys routes))) (JsObject.keys routes)
                routes entryImports ∅) as [[R1 c1]|e|]; simpl.
    - eauto.
    - exfalso. eapply Hsafe; [exact Hlinks| |reflexivity]. intros y Hy. exact Hy.
    - assert (false = true) as Habs; [|discriminate].
      apply Hfin. intros k _. destruct (chain_ends routes k Hac) as (n & Hn & Hend).
      exists n. split; [lia|assumption]. }
  exists optimized. intros fuel Hfuel.
  eapply optimizeRoutes_fuel_le; [|exact Hrun]. lia.
Qed.


(** X11: the pass touches nothing but [imports]: it returns the routes
    under the same keys in the same order, each route the object it was
    with some value in its [imports] field. *)
Theorem optimizeRoutes_touches_imports_only fuel routes entryImports optimized :
  optimizeRoutes fuel routes entryImports = Returned optimized ->
  JsObject.keys optimized = JsObject.keys routes /\
  (forall k route,
     JsObject.get k routes = Some route ->
     exists v, JsObject.get k optimized = Some (set_imports v route)) /\
  (forall k, JsObject.get k routes = None -> JsObject.get k optimized = None).
Proof.
  intros Hrun. pose proof (optimizeRoutes_skeleton _ _ _ _ Hrun) as Hs.
  split; [exact (skeleton_same_keys _ _ Hs)|]. split.
  - intros k route Hg.
    destruct (optimizeRoutes_pruned _ _ _ _ _ _ Hrun Hg) as (l & _ & Hopt). eauto.
  - intros k Hg. pose proof (skeleton_get k optimized) as H1.
    rewrite Hs, skeleton_get, Hg in H1.
    destruct (JsObject.get k optimized); [discriminate|reflexivity].
Qed.

Lemma optimizeRoutes_touches_imports_only_witness :
  JsObject.keys three_levels_optimized = JsObject.keys three_levels /\
  (forall k route,
     JsObject.get k three_levels = Some route ->
     exists v, JsObject.get k three_levels_optimized = Some (set_imports v route)) /\
  (forall k, JsObject.get k three_levels = None ->
             JsObject.get k three_levels_optimized = None).
Proof.
  apply (optimizeRoutes_touches_imports_only 3 three_levels []).
  vm_compute. reflexivity.
Defined.

(** X12: a call of [optimizeRouteImports] from a fresh cache that returns
    a list has stored that list in the cache under the route id; every
    list in the cache is the import list its route now has; and the call
    repeated is answered from the cache, with the same list and without a
    change to the routes. *)
Theorem optimizeRouteImports_memoised fuel k routes entryImports l routes' cache' :
  optimizeRouteImports fuel k routes entryImports ∅ = Returned (l, routes', cache') ->
  cache' !! k = Some l /\
  (forall k' l', cache' !! k' = Some l' -> imports_of routes' k' = l') /\
  (forall fuel',
     optimizeRouteImports (S fuel') k routes' entryImports cache'
     = Returned (l, routes', cache')).
Proof.
  intros Hrun.
  destruct (optimizeRouteImports_inv routes entryImports _ _ _ _ _ _ _
              (pass_inv_start routes entryImports) Hrun) as (Hinv & Hk & _).
  split; [exact Hk|]. split.
  - intros k' l' Hl'. destruct (inv_stored _ _ _ _ Hinv k' l' Hl') as (r & Hr & Himp).
    unfold imports_of. rewrite Hr. now apply imports_or_empty_stored.
  - intros fuel'. simpl. rewrite Hk. reflexivity.
Qed.

Lemma optimizeRouteImports_memoised_witness :
  exists routes' cache',
    optimizeRouteImports 3 "routes/a/b" three_levels [] ∅
    = Returned (["A"; "C"], routes', cache') /\
    cache' !! "routes/a/b" = Some ["A"; "C"] /\
    (forall k' l', cache' !! k' = Some l' -> imports_of routes' k' = l') /\
    (forall fuel',
       optimizeRouteImports (S fuel') "routes/a/b" routes' [] cache'
       = Returned (["A"; "C"], routes', cache')).
Proof.
  eexists. eexists. split; [vm_compute; reflexivity|].
  apply (optimizeRouteImports_memoised 3 "routes/a/b" three_levels []).
  vm_compute. reflexivity.
Defined.

(** ** The order of the routes does not count *)

Lemma parent_of_ext routes1 routes2 :
  (forall k, JsObject.get k routes1 = JsObject.get k routes2) ->
  forall k, parent_of routes1 k = parent_of routes2 k.
Proof. intros Hext k. unfold parent_of. now rewrite Hext. Qed.

Lemma follow_ext routes1 routes2 :
  (forall k, JsObject.get k routes1 = JsObject.get k routes2) ->
  forall n k, follow routes1 n k = follow routes2 n k.
Proof.
  intros Hext. induction n as [|n IH]; intros k; simpl; [reflexivity|].
  rewrite (parent_of_ext _ _ Hext). destruct (parent_of routes2 k); auto.
Qed.

Lemma Pruned_ext routes1 routes2 entryImports :
  (forall k, JsObject.get k routes1 = JsObject.get k routes2) ->
  forall k l, Pruned routes1 entryImports k l -> Pruned routes2 entryImports k l.
Proof.
  intros Hext k l. induction 1 as [k route Hg Hp|k route parent lp Hg Hp _ IH].
  - apply Pruned_root; [|assumption]. now rewrite <- Hext.
  - eapply Pruned_child; eauto. now rewrite <- Hext.
Qed.

(** X10: the order in which the routes are enumerated does not count:
    when the pass returns on a routes object, it returns on every object
    with the same routes in another order, and every route ends with the
    same fields. *)
Theorem optimizeRoutes_order_independent fuel routes1 routes2 entryImports optimized1 :
  NoDup (JsObject.keys routes1) ->
  Permutation routes1 routes2 ->
  optimizeRoutes fuel routes1 entryImports = Returned optimized1 ->
  exists optimized2,
    passes_to routes2 entryImports optimized2 /\
    forall k, JsObject.get k optimized2 = JsObject.get k optimized1.
Proof.
  intros Hnd Hperm Hrun.
  pose proof (fun k => get_permutation routes1 routes2 k Hnd Hperm) as Hext.
  assert (forall k, In k (JsObject.keys routes2) -> In k (JsObject.keys routes1))
    as Hkeys.
  { intros k. apply Permutation_in. symmetry. apply Permutation_map. exact Hperm. }
  destruct (returned_forest _ _ _ _ Hrun) as [Hac Hlinks].
  destruct (forest_returns routes2 entryImports) as [optimized2 Hpass].
  - intros k i j x Hk Hij. rewrite <- !(follow_ext _ _ Hext). apply Hac; auto.
  - intros k parent Hp. rewrite <- (parent_of_ext _ _ Hext) in Hp.
    eapply Permutation_in; [apply Permutation_map; exact Hperm|]. eapply Hlinks; eauto.
  - exists optimized2. split; [exact Hpass|]. intros k.
    pose proof (passes_to_run _ _ _ Hpass) as Hrun2.
    destruct (JsObject.get k routes1) as [route|] eqn:Hg.
    + destruct (optimizeRoutes_pruned _ _ _ _ _ _ Hrun Hg) as (l1 & Hp1 & ->).
      rewrite Hext in Hg.
      destruct (optimizeRoutes_pruned _ _ _ _ _ _ Hrun2 Hg) as (l2 & Hp2 & ->).
      rewrite (Pruned_det _ _ _ _ _ Hp2 (Pruned_ext _ _ _ Hext _ _ Hp1)). reflexivity.
    + pose proof (skeleton_get k optimized1) as H1.
      rewrite (optimizeRoutes_skeleton _ _ _ _ Hrun), skeleton_get, Hg in H1.
      pose proof (skeleton_get k optimized2) as H2.
      rewrite (optimizeRoutes_skeleton _ _ _ _ Hrun2), skeleton_get, <- Hext, Hg in H2.
      destruct (JsObject.get k optimized1), (JsObject.get k optimized2);
        try discriminate; reflexivity.
Qed.

Lemma optimizeRoutes_order_independent_witness :
  exists optimized2,
    passes_to (List.rev three_levels) [] optimized2 /\
    forall k, JsObject.get k optimized2 = JsObject.get k three_levels_optimized.
Proof.
  apply (optimizeRoutes_order_independent 3 three_levels (List.rev three_levels) []).
  - vm_compute. repeat (constructor; [simpl; intuition discriminate|]). constructor.
  - apply Permutation_rev.
  - vm_compute. reflexivity.
Defined.

Lemma count_occ_filter_bool (f : string -> bool) l url :
  count_occ string_dec (List.filter f l) url
  = if f url then count_occ string_dec l url else 0.
Proof.
  induction l as [|x l IH]; simpl; [now destruct (f url)|].
  destruct (f x) eqn:Hx; simpl; destruct (string_dec x url) as [->|Hne]; rewrite IH.
  - now rewrite Hx.
  - reflexivity.
  - now rewrite Hx.
  - reflexivity.
Qed.

(** X13: the pass removes a url from a route in all its occurrences or
    in none: a url of the coverage list of the route (the imports of the
    entry point and the pruned imports of its parent) does not occur in
    the pruned list, and every other url occurs in it as many times as in
    the raw list. *)
Theorem pruned_imports_counts fuel routes entryImports optimized k url :
  optimizeRoutes fuel routes entryImports = Returned optimized ->
  In k (JsObject.keys routes) ->
  count_occ string_dec (imports_of optimized k) url
  = if includes (coverage routes optimized entryImports k) url
    then 0
    else count_occ string_dec (imports_of routes k) url.
Proof.
  intros Hrun Hk. destruct (keys_get_Some _ _ Hk) as [route Hg].
  rewrite (imports_of_optimized _ _ _ _ _ _ Hrun Hg), count_occ_filter_bool.
  unfold imports_of. rewrite Hg.
  destruct (includes (coverage routes optimized entryImports k) url); reflexivity.
Qed.

Lemma pruned_imports_counts_witness :
  count_occ string_dec (imports_of three_levels_optimized "routes/a/b") "A"
  = if includes (coverage three_levels three_levels_optimized [] "routes/a/b") "A"
    then 0
    else count_occ string_dec (imports_of three_levels "routes/a/b") "A".
Proof.
  apply (pruned_imports_counts 3 three_levels [] three_levels_optimized "routes/a/b" "A").
  - vm_compute. reflexivity.
  - vm_compute. auto.
Defined.

(** ** The manifest as a whole *)



Section manifest_facts.
Context `{Externals}.


(** X15: [write] overwrites: for two manifests with the same version,
    writing the second after the first leaves the files that writing the
    second alone leaves, both get the same url, and writing a manifest
    that [write] has stamped stamps it as it is. *)
Theorem write_overwrites config (m1 m2 : Manifest.t Hmr) fs :
  Manifest.version m1 = Manifest.version m2 ->
  files (snd (write config m2 (snd (write config m1 fs))))
  = files (snd (write config m2 fs)) /\
  Manifest.url (fst (write config m2 fs)) = Manifest.url (fst (write config m1 fs)) /\
  (forall fs', fst (write config (fst (write config m1 fs)) fs')
               = fst (write config m1 fs)).
Proof.
  intros Hversion. unfold write, writeFileSafe, manifestFilename. simpl.
  rewrite Hversion. split; [apply insert_insert_eq|]. split; reflexivity.
Qed.

End manifest_facts.

(** ** The further properties on the sample build *)

Section sample_build_more.
#[local] Existing Instance sample_externals.

Lemma create_entry_is_client_bundle_witness :
  exists key output entryPoint,
    JsObject.get key (Metafile.outputs sample_metafile) = Some output /\
    truthy (Metafile.entryPoint output) = Some entryPoint /\
    path_resolve entryPoint = RemixConfig.entryClientFilePath sample_config /\
    Entry.module (Manifest.entry sample_manifest) = resolveUrl sample_config key /\
    Entry.imports (Manifest.entry sample_manifest)
    = resolveImports sample_config (Metafile.imports output).
Proof.
  apply (@create_entry_is_client_bundle sample_externals sample_config sample_metafile
           2 None None sample_manifest).
  vm_compute. reflexivity.
Defined.

Lemma create_routes_from_config_witness :
  exists key output entryPoint configKey configRoute,
    JsObject.get key (Metafile.outputs sample_metafile) = Some output /\
    truthy (Metafile.entryPoint output) = Some entryPoint /\
    String.prefix "browser-route-module:" entryPoint = true /\
    JsObject.get configKey (RemixConfig.routes sample_config) = Some configRoute /\
    Route.file configRoute = strip_route_module_tag entryPoint /\
    Route.id configRoute = "routes/index" /\
    id sample_index_route = "routes/index" /\
    set_imports None sample_index_route
    = set_imports None (manifestRoute sample_config key output configRoute) /\
    sublist (imports_or_empty sample_index_route)
            (resolveImports sample_config (Metafile.imports output)).
Proof.
  apply (@create_routes_from_config sample_externals sample_config sample_metafile
           2 None None sample_manifest "routes/index" sample_index_route).
  - vm_compute. reflexivity.
  - vm_compute. reflexivity.
Defined.

Lemma create_passes_over_witness :
  create 2 sample_config sample_metafile_lazy None None
  = create 2 sample_config (without_passed_over sample_config sample_metafile_lazy)
      None None.
Proof.
  apply (@create_passes_over sample_externals sample_config sample_metafile_lazy).
  vm_compute. repeat (constructor; [simpl; intuition discriminate|]). constructor.
Defined.

(** The chunk that is an entry point of its own and the chunk that is
    none are both passed over. *)
Example sample_passed_over :
  JsObject.keys (Metafile.outputs (without_passed_over sample_config sample_metafile_lazy))
  = ["public/build/root-B2.js"; "public/build/entry.client-A1.js";
     "public/build/routes/index-C3.js"].
Proof. vm_compute. reflexivity. Qed.

Lemma unrouted_module_fatal_witness :
  exists entryPoint',
    routesByFile sample_config !! strip_route_module_tag entryPoint' = None /\
    create 2 sample_config sample_metafile_unrouted None None
    = Thrown (InvariantError ("Cannot get route(s) for entry point " +:+ entryPoint')).
Proof.
  apply (@unrouted_module_fatal sample_externals sample_config sample_metafile_unrouted
           2 None None "public/build/routes/gone-D4.js"
           (Metafile.mkOutput [] (Some "browser-route-module:routes/gone.tsx?browser"))
           "browser-route-module:routes/gone.tsx?browser").
  - vm_compute. reflexivity.
  - vm_compute. reflexivity.
  - apply String.eqb_neq. vm_compute. reflexivity.
  - vm_compute. reflexivity.
  - vm_compute. reflexivity.
Defined.


(** A route whose parent has no bundle: the pass reads the missing parent
    and [create] throws. *)
Example create_parent_without_bundle :
  create 2 sample_config
    (Metafile.mk
       [("public/build/entry.client-A1.js",
         Metafile.mkOutput [] (Some "app/entry.client.tsx"));
        ("public/build/routes/index-C3.js",
         Metafile.mkOutput []
           (Some "browser-route-module:routes/index.tsx?browser"))])
    None None
  = Thrown TypeError.
Proof. vm_compute. reflexivity. Qed.

Lemma write_overwrites_witness :
  files (snd (write sample_config
                (Manifest.mk (Entry.mk "/build/e.js" []) [] None "13acd7e9" None None)
                (snd (write sample_config
                        (Manifest.mk (Entry.mk "/build/e.js" []) [] None "13acd7e9"
                           (Some 7) None)
                        empty_disk))))
  = files (snd (write sample_config
                  (Manifest.mk (Entry.mk "/build/e.js" []) [] None "13acd7e9" None None)
                  empty_disk)) /\
  Manifest.url
    (fst (write sample_config
            (Manifest.mk (Entry.mk "/build/e.js" []) [] None "13acd7e9" None None)
            empty_disk))
  = Manifest.url
      (fst (write sample_config
              (Manifest.mk (Entry.mk "/build/e.js" []) [] None "13acd7e9" (Some 7) None)
              empty_disk)) /\
  (forall fs',
     fst (write sample_config
            (fst (write sample_config
                    (Manifest.mk (Entry.mk "/build/e.js" []) [] None "13acd7e9"
                       (Some 7) None)
                    empty_disk))
            fs')
     = fst (write sample_config
              (Manifest.mk (Entry.mk "/build/e.js" []) [] None "13acd7e9" (Some 7) None)
              empty_disk)).
Proof.
  apply (@write_overwrites sample_externals sample_config
           (Manifest.mk (Entry.mk "/build/e.js" []) [] None "13acd7e9" (Some 7) None)
           (Manifest.mk (Entry.mk "/build/e.js" []) [] None "13acd7e9" None None)
           empty_disk).
  reflexivity.
Defined.

End sample_build_more.

(** ** Every bundled route reaches the manifest *)

Section complete_facts.
Context `{Externals}.
Variable config : RemixConfig.t.
Variable metafile : Metafile.t.

Lemma set_keeps (k k' : string) (v : ManifestRoute) (routes : Routes) :
  is_Some (JsObject.get k routes) -> is_Some (JsObject.get k (JsObject.set k' v routes)).
Proof.
  intros Hk. destruct (decide (k' = k)) as [->|Hne].
  - rewrite get_set_eq. eauto.
  - now rewrite get_set_ne.
Qed.

Lemma visitOutput_keeps state key state' k :
  visitOutput config metafile (routesByFile config) state key = Returned state' ->
  is_Some (JsObject.get k (snd state)) -> is_Some (JsObject.get k (snd state')).
Proof.
  unfold visitOutput. intros Hrun Hk.
  destruct (JsObject.get key (Metafile.outputs metafile)) as [output|]; [|discriminate].
  destruct (truthy (Metafile.entryPoint output)) as [entryPoint|];
    [|injection Hrun as <-; assumption].
  destruct (String.eqb (path_resolve entryPoint)
              (RemixConfig.entryClientFilePath config));
    [injection Hrun as <-; assumption|].
  destruct (String.prefix "browser-route-module:" entryPoint);
    [|injection Hrun as <-; assumption].
  destruct (routesByFile config !! strip_route_module_tag entryPoint) as [group|];
    simpl in Hrun; [|discriminate].
  injection Hrun as <-. simpl.
  apply (fold_left_invariant _ (fun routes : Routes => is_Some (JsObject.get k routes)));
    [assumption|].
  intros routes route _. apply set_keeps.
Qed.

Lemma visitOutputs_keeps sortedKeys k :
  forall state state',
    visitOutputs config metafile (routesByFile config) state sortedKeys
    = Returned state' ->
    is_Some (JsObject.get k (snd state)) -> is_Some (JsObject.get k (snd state')).
Proof.
  induction sortedKeys as [|key rest IH]; intros state state' Hrun Hk; simpl in Hrun.
  { injection Hrun as <-. assumption. }
  destruct (visitOutput config metafile (routesByFile config) state key)
    as [state1| |] eqn:Hstep; simpl in Hrun; try discriminate.
  eapply IH; [exact Hrun|]. eapply visitOutput_keeps; eauto.
Qed.

Lemma visitOutputs_adds key output entryPoint configKey configRoute :
  JsObject.get key (Metafile.outputs metafile) = Some output ->
  truthy (Metafile.entryPoint output) = Some entryPoint ->
  path_resolve entryPoint <> RemixConfig.entryClientFilePath config ->
  String.prefix "browser-route-module:" entryPoint = true ->
  JsObject.get configKey (RemixConfig.routes config) = Some configRoute ->
  Route.file configRoute = strip_route_module_tag entryPoint ->
  forall sortedKeys state state',
    In key sortedKeys ->
    visitOutputs config metafile (routesByFile config) state sortedKeys
    = Returned state' ->
    is_Some (JsObject.get (Route.id configRoute) (snd state')).
Proof.
  intros Hg Hep Hclient Htag Hconfig Hfile.
  induction sortedKeys as [|k rest IH]; intros state state' Hin Hrun; [destruct Hin|].
  simpl in Hrun.
  destruct (visitOutput config metafile (routesByFile config) state k)
    as [state1| |] eqn:Hstep; simpl in Hrun; try discriminate.
  destruct Hin as [->|Hin]; [|eapply IH; eauto].
  eapply visitOutputs_keeps; [exact Hrun|].
  unfold visitOutput in Hstep. rewrite Hg, Hep, Htag in Hstep.
  apply String.eqb_neq in Hclient. rewrite Hclient in Hstep.
  destruct (routesByFile_sound_complete config) as [Hcomplete _].
  destruct (Hcomplete _ _ Hconfig) as (group & Hgroup & Hmember).
  rewrite <- Hfile, Hgroup in Hstep. simpl in Hstep. injection Hstep as <-. simpl.
  apply (fold_left_reaches _
           (fun routes : Routes => is_Some (JsObject.get (Route.id configRoute) routes))
           group configRoute); [assumption| |].
  - intros routes. rewrite get_set_eq. eauto.
  - intros routes route. apply set_keeps.
Qed.

(** X16: every route of the configuration whose source file has a tagged
    route module among the outputs is in the manifest that [create]
    returns, under its id; a source file that backs several routes gives
    an entry to each of them. *)
Theorem create_routes_complete
    fuel cssBundleHref hmr m key output entryPoint configKey configRoute :
  create fuel config metafile cssBundleHref hmr = Returned m ->
  JsObject.get key (Metafile.outputs metafile) = Some output ->
  truthy (Metafile.entryPoint output) = Some entryPoint ->
  path_resolve entryPoint <> RemixConfig.entryClientFilePath config ->
  String.prefix "browser-route-module:" entryPoint = true ->
  JsObject.get configKey (RemixConfig.routes config) = Some configRoute ->
  Route.file configRoute = strip_route_module_tag entryPoint ->
  exists route,
    JsObject.get (Route.id configRoute) (Manifest.routes m) = Some route /\
    id route = Route.id configRoute.
Proof.
  intros Hcreate Hg Hep Hclient Htag Hconfig Hfile.
  destruct (create_returned _ _ _ _ _ _ Hcreate) as (routes & Hloop & Hopt).
  assert (forall k route, JsObject.get k routes = Some route ->
                          route_from config metafile k route) as Hfrom.
  { apply (visitOutputs_builds config metafile _ _ _ Hloop).
    split; intros; discriminate. }
  destruct (visitOutputs_adds key output entryPoint configKey configRoute
              Hg Hep Hclient Htag Hconfig Hfile _ _ _
              (proj2 (sortedOutputKeys_keys metafile key) (get_Some_keys _ _ _ Hg))
              Hloop) as [raw Hraw].
  simpl in Hraw.
  destruct (optimizeRoutes_pruned _ _ _ _ _ _ Hopt Hraw) as (l & _ & Hget).
  eexists. split; [exact Hget|]. simpl.
  destruct (Hfrom _ _ Hraw) as (? & ? & ? & ? & croute & _ & _ & _ & _ & _ & _ & Hid & ->).
  exact Hid.
Qed.

End complete_facts.

Section sample_build_complete.
#[local] Existing Instance sample_externals.

Lemma create_routes_complete_witness :
  exists route,
    JsObject.get "routes/index" (Manifest.routes sample_manifest) = Some route /\
    id route = "routes/index".
Proof.
  apply (@create_routes_complete sample_externals sample_config sample_metafile
           2 None None sample_manifest "public/build/routes/index-C3.js"
           (Metafile.mkOutput
              [sample_import "public/build/_shared/chunk-1.js";
               sample_import "public/build/_shared/chunk-2.js";
               sample_import "public/build/_shared/chunk-3.js"]
              (Some "browser-route-module:routes/index.tsx?browser"))
           "browser-route-module:routes/index.tsx?browser" "routes/index"
           (Route.mk "routes/index" (Some "root") None (Some true) None
              "routes/index.tsx")).
  - vm_compute. reflexivity.
  - vm_compute. reflexivity.
  - vm_compute. reflexivity.
  - apply String.eqb_neq. vm_compute. reflexivity.
  - vm_compute. reflexivity.
  - vm_compute. reflexivity.
  - vm_compute. reflexivity.
Defined.

End sample_build_complete.
